(** * cpu/misc.py: seeding, symlinks, small tables and the environment report

    A shallow embedding of the four functions of [cpu/misc.py]
    ([set_random_seed], [symlink], [create_small_table], [collect_env]) and
    the properties their specification states about them.

    Python calls that change the process (generators, [os.environ], the
    cudnn flags, the log, the file system) are functions in a state and
    exception monad over the part of the process each function touches; an
    exception leaves the state as it was when it was raised.

    The first part of the file holds the models, one module per function;
    the second part holds the proofs, in the same order. *)

From stdpp Require Import base strings gmap list pretty.
From Stdlib Require Import ZArith Lia Ascii.

Local Open Scope Z_scope.

(** * Part I: the models *)

(** ** The Python runtime: exceptions and stateful calls *)

Module Py.

(** The built-in exceptions the modelled calls raise. *)
Inductive PyExc : Type :=
| TypeError
| ValueError
| RuntimeError
| FileNotFoundError
| FileExistsError
| IsADirectoryError.

(** How a call ends: with a value, or with an exception. *)
Inductive Outcome (A : Type) : Type :=
| Returned (a : A)
| Raised (e : PyExc).
Arguments Returned {A} a.
Arguments Raised {A} e.

(** A call on a process state [S]: its outcome and the state it leaves. *)
Definition Call (S A : Type) : Type := S -> Outcome A * S.

Definition ret {S A} (a : A) : Call S A := fun s => (Returned a, s).

Definition raise {S A} (e : PyExc) : Call S A := fun s => (Raised e, s).

Definition bind {S A B} (c : Call S A) (k : A -> Call S B) : Call S B :=
  fun s =>
    match c s with
    | (Returned a, s') => k a s'
    | (Raised e, s') => (Raised e, s')
    end.

(** A computation that reads no state: its outcome, in the state as it is. *)
Definition lift {S A} (o : Outcome A) : Call S A := fun s => (o, s).

Definition gets {S A} (f : S -> A) : Call S A := fun s => (Returned (f s), s).

Definition modify {S} (f : S -> S) : Call S unit := fun s => (Returned tt, f s).

Definition returns {A} (o : Outcome A) : Prop := exists a, o = Returned a.

Definition raises {A} (o : Outcome A) : Prop := exists e, o = Raised e.

End Py.

Import Py.

Notation "x <- c1 ;; c2" := (bind c1 (fun x => c2))
  (at level 100, c1 at next level, right associativity).
Notation "c1 ;; c2" := (bind c1 (fun _ => c2))
  (at level 100, right associativity).

(** ** set_random_seed *)

Module SeedSetter.

(** The argument values [seed] is modelled over: [None], an [int], or a
    [str] (a value of a type that has no order against [int]). *)
Inductive PyObj : Type :=
| PyNone
| PyInt (z : Z)
| PyStr (s : string).

(** The values of the declared type of [seed], [Optional[int]]. *)
Definition optional_int (o : option Z) : PyObj :=
  match o with
  | None => PyNone
  | Some z => PyInt z
  end.

(** [str(x)], as an f-string renders [{x}]. *)
Definition py_str (x : PyObj) : string :=
  match x with
  | PyNone => "None"
  | PyInt z => pretty z
  | PyStr s => s
  end.

(** The three generator libraries. A generator state is abstract; what the
    module uses of it is seeding with an integer, and for [random] the
    draw [random.randint(a, b)], which returns [N] with [a <= N <= b]. *)
Class Generators : Type := {
  py_gen : Type;
  np_gen : Type;
  torch_gen : Type;
  py_seeded : Z -> py_gen;
  np_seeded : Z -> np_gen;
  torch_seeded : Z -> torch_gen;
  randint : Z -> Z -> py_gen -> Z * py_gen;
  randint_range : forall a b g, a <= b -> a <= fst (randint a b g) <= b
}.

(** An instance to run the model on: a generator state is the seed it
    was given and the number of draws since; a draw walks the interval. *)
#[export, refine] Instance counting_generators : Generators := {
  py_gen := Z * Z;
  np_gen := Z;
  torch_gen := Z;
  py_seeded := fun s => (s, 0);
  np_seeded := fun s => s;
  torch_seeded := fun s => s;
  randint := fun a b g => (a + (fst g + snd g) mod (b - a + 1), (fst g, snd g + 1))
}.
Proof.
  intros a b g Hab. cbn [fst].
  pose proof (Z.mod_pos_bound (fst g + snd g) (b - a + 1)). lia.
Defined.

Inductive Level : Type := WARNING.

Section WithGenerators.
Context `{G : Generators}.

(** The process state [set_random_seed] reads and writes. *)
Record World : Type := mkWorld {
  random_state : py_gen;            (* random's global generator *)
  np_random_state : np_gen;         (* numpy's global generator *)
  torch_state : torch_gen;          (* torch's default generator *)
  environ : gmap string string;     (* os.environ *)
  cudnn_benchmark : bool;           (* torch.backends.cudnn.benchmark *)
  cudnn_deterministic : bool;       (* torch.backends.cudnn.deterministic *)
  log : list (Level * string)       (* records handed to the logger *)
}.

Definition set_random_state (g : py_gen) (w : World) : World :=
  mkWorld g (np_random_state w) (torch_state w) (environ w)
          (cudnn_benchmark w) (cudnn_deterministic w) (log w).

Definition set_np_random_state (g : np_gen) (w : World) : World :=
  mkWorld (random_state w) g (torch_state w) (environ w)
          (cudnn_benchmark w) (cudnn_deterministic w) (log w).

Definition set_torch_state (g : torch_gen) (w : World) : World :=
  mkWorld (random_state w) (np_random_state w) g (environ w)
          (cudnn_benchmark w) (cudnn_deterministic w) (log w).

Definition set_environ (e : gmap string string) (w : World) : World :=
  mkWorld (random_state w) (np_random_state w) (torch_state w) e
          (cudnn_benchmark w) (cudnn_deterministic w) (log w).

Definition set_cudnn_benchmark (b : bool) (w : World) : World :=
  mkWorld (random_state w) (np_random_state w) (torch_state w) (environ w)
          b (cudnn_deterministic w) (log w).

Definition set_cudnn_deterministic (b : bool) (w : World) : World :=
  mkWorld (random_state w) (np_random_state w) (torch_state w) (environ w)
          (cudnn_benchmark w) b (log w).

Definition set_log (l : list (Level * string)) (w : World) : World :=
  mkWorld (random_state w) (np_random_state w) (torch_state w) (environ w)
          (cudnn_benchmark w) (cudnn_deterministic w) l.

(** *** The library calls *)

(** [random.randint(a, b)]: a draw from [random]'s generator. *)
Definition random_randint (a b : Z) : Call World Z :=
  fun w =>
    let (n, g) := randint a b (random_state w) in
    (Returned n, set_random_state g w).

(** [logger.warning(msg)]. *)
Definition logger_warning (msg : string) : Call World unit :=
  modify (fun w => set_log (log w ++ [(WARNING, msg)]) w).

(** [random.seed(a)] for an int [a]: any int is accepted. *)
Definition random_seed (a : Z) : Call World unit :=
  modify (set_random_state (py_seeded a)).

(** [np.random.seed(seed)] for an int: a seed outside [0, 2**32 - 1] is a
    ValueError. *)
Definition np_random_seed (seed : Z) : Call World unit :=
  if (0 <=? seed) && (seed <=? 2 ^ 32 - 1)
  then modify (set_np_random_state (np_seeded seed))
  else raise ValueError.

(** [torch.manual_seed(seed)] for an int: a seed outside
    [-0x8000_0000_0000_0000, 0xffff_ffff_ffff_ffff] is a RuntimeError. *)
Definition torch_manual_seed (seed : Z) : Call World unit :=
  if (- 2 ^ 63 <=? seed) && (seed <=? 2 ^ 64 - 1)
  then modify (set_torch_state (torch_seeded seed))
  else raise RuntimeError.

(** [os.environ[key] = value]. *)
Definition environ_setitem (key value : string) : Call World unit :=
  modify (fun w => set_environ (<[key := value]> (environ w)) w).

(** *** The function *)

(** [np.iinfo(np.uint32).max] and [.min]: Python ints. *)
Definition max_seed_value : Z := 2 ^ 32 - 1.
Definition min_seed_value : Z := 0.

(** [lo <= x] and [x <= hi] for an int bound: between ints the order of the
    integers; against [None] or a [str], a TypeError. *)
Definition int_le_obj (lo : Z) (x : PyObj) : Outcome bool :=
  match x with
  | PyInt z => Returned (lo <=? z)
  | PyNone | PyStr _ => Raised TypeError
  end.

Definition obj_le_int (x : PyObj) (hi : Z) : Outcome bool :=
  match x with
  | PyInt z => Returned (z <=? hi)
  | PyNone | PyStr _ => Raised TypeError
  end.

(** [seed is None or not (min_seed_value <= seed <= max_seed_value)]:
    [or] stops at a true left operand, and the chained comparison stops
    at a false first comparison. *)
Definition seed_invalid (seed : PyObj) : Outcome bool :=
  match seed with
  | PyNone => Returned true
  | _ =>
      match int_le_obj min_seed_value seed with
      | Raised e => Raised e
      | Returned false => Returned true
      | Returned true =>
          match obj_le_int seed max_seed_value with
          | Raised e => Raised e
          | Returned b => Returned (negb b)
          end
      end
  end.

(** The int that a seed which passed the range test is (no other value
    passes it, lemma [seed_invalid_false]). *)
Definition int_of (seed : PyObj) : Outcome Z :=
  match seed with
  | PyInt z => Returned z
  | PyNone | PyStr _ => Raised TypeError
  end.

(** The f-string of line 80. *)
Definition warning_text (seed : PyObj) (new_seed : Z) : string :=
  "Got invalid seed: " +:+ py_str seed +:+
  ", use the generated seed: " +:+ pretty new_seed.

(** Lines 76-81: the seed the rest of the function uses. *)
Definition resolve_seed (seed : PyObj) : Call World Z :=
  invalid <- lift (seed_invalid seed) ;;
  if invalid : bool
  then new_seed <- random_randint min_seed_value max_seed_value ;;
       logger_warning (warning_text seed new_seed) ;;
       ret new_seed
  else lift (int_of seed).

(** Lines 82-88, on the resolved seed. *)
Definition apply_seed (seed : Z) (deterministic : bool) : Call World unit :=
  random_seed seed ;;
  np_random_seed seed ;;
  torch_manual_seed seed ;;
  environ_setitem "PYTHONHASHSEED" (pretty seed) ;;
  if deterministic
  then modify (set_cudnn_benchmark false) ;;
       modify (set_cudnn_deterministic true)
  else ret tt.

Definition set_random_seed (seed : PyObj) (deterministic : bool)
  : Call World unit :=
  seed <- resolve_seed seed ;;
  apply_seed seed deterministic.

(** *** The states the function leaves *)

(** After a replacement: the generator has drawn, the warning is logged. *)
Definition after_replacement (seed : PyObj) (n : Z) (g : py_gen) (w : World)
  : World :=
  set_log (log w ++ [(WARNING, warning_text seed n)]) (set_random_state g w).

(** The draw of line 79 in state [w], and the state it leaves. *)
Definition replaced (seed : PyObj) (w : World) : Z * World :=
  let d := randint 0 (2 ^ 32 - 1) (random_state w) in
  (fst d, after_replacement seed (fst d) (snd d) w).

(** After lines 82-88 on seed [s]. *)
Definition seeded_world (s : Z) (deterministic : bool) (w : World) : World :=
  mkWorld (py_seeded s) (np_seeded s) (torch_seeded s)
    (<["PYTHONHASHSEED" := pretty s]> (environ w))
    (if deterministic then false else cudnn_benchmark w)
    (if deterministic then true else cudnn_deterministic w)
    (log w).

(** What lines 76-81 make of a seed of the declared type: the seed itself
    when it is an int of the range, the draw otherwise. *)
Definition resolved (seed : option Z) (w : World) : Z * World :=
  match seed with
  | Some z =>
      if decide (0 <= z <= 2 ^ 32 - 1) then (z, w) else replaced (PyInt z) w
  | None => replaced PyNone w
  end.

End WithGenerators.

(** Running a call: unfold the monad down to the state it is applied to. *)
Ltac run_call :=
  unfold set_random_seed, resolve_seed, apply_seed, random_randint,
    logger_warning, random_seed, np_random_seed, torch_manual_seed,
    environ_setitem, bind, lift, ret, raise, modify, gets.

(** A process to run the model on: fresh generators, an empty environment,
    cudnn in benchmark mode, nothing logged. *)
Definition fresh_world : World (G := counting_generators) :=
  mkWorld (7, 0) 0 0 ∅ true false [].

(** Another process: generators in use, cudnn not in benchmark mode. *)
Definition used_world : World (G := counting_generators) :=
  mkWorld (3, 9) 1 2 ∅ false false [].

End SeedSetter.

(** ** symlink *)

Module Symlink.

(** What a path names. A symbolic link holds the path it points to, which
    may name nothing (a broken link). *)
Inductive Entry : Type :=
| RegularFile (content : string)
| Directory
| SymbolicLink (target : string).

(** The file system as [lstat] sees it: the entry each path names, a final
    symbolic link not followed. The directory a path lies in is taken to
    exist and to be writable. *)
Abbreviation FileSystem := (gmap string Entry).

(** The keyword options [os.symlink] takes besides [src] and [dst]
    ([dir_fd] left at its default): passed through by [symlink]. *)
Record SymlinkOptions : Type := { target_is_directory : bool }.

Definition no_options : SymlinkOptions := {| target_is_directory := false |}.

(** [os.path.lexists(path)]: true for whatever [lstat] finds, broken
    symbolic links included. *)
Definition os_path_lexists (path : string) : Call FileSystem bool :=
  gets (fun fs => match fs !! path with Some _ => true | None => false end).

(** [os.remove(path)]: unlinks a file or a symbolic link (the link, not
    what it points to). A directory is not removed: the call raises an
    OSError, on Linux an IsADirectoryError. A missing path is a
    FileNotFoundError. *)
Definition os_remove (path : string) : Call FileSystem unit :=
  fun fs =>
    match fs !! path with
    | None => (Raised FileNotFoundError, fs)
    | Some Directory => (Raised IsADirectoryError, fs)
    | Some (RegularFile _) | Some (SymbolicLink _) => (Returned tt, delete path fs)
    end.

(** [os.symlink(src, dst, **kwargs)]: creates the link [dst] holding [src],
    whether or not [src] names anything; an existing [dst] of any kind is a
    FileExistsError. [target_is_directory] has no effect outside Windows.
    The errors of the call that depend on what this file system does not
    hold (a missing or read-only directory of [dst], an empty or over-long
    [src]) are not represented: at a free [dst] the call succeeds. *)
Definition os_symlink (src dst : string) (kwargs : SymlinkOptions)
  : Call FileSystem unit :=
  fun fs =>
    match fs !! dst with
    | Some _ => (Raised FileExistsError, fs)
    | None => (Returned tt, <[dst := SymbolicLink src]> fs)
    end.

Definition symlink (src dst : string) (overwrite : bool) (kwargs : SymlinkOptions)
  : Call FileSystem unit :=
  found <- os_path_lexists dst ;;
  (if found && overwrite then os_remove dst else ret tt) ;;
  os_symlink src dst kwargs.

(** A file system to run the model on. *)
Definition sample_fs : FileSystem :=
  <["data/file" := RegularFile "x"]>
  (<["data/dir" := Directory]>
  (<["data/link" := SymbolicLink "data/file"]>
  (<["data/broken" := SymbolicLink "data/gone"]> ∅))).

End Symlink.

(** ** tabulate, as [create_small_table] calls it

    [tabulate] is a third-party library. This is its pipeline
    ([_format], [_align_column], [_align_header], [_format_table] with the
    "pipe" format) for a table of one row of numbers under named headers,
    with [floatfmt=".3f"]. Texts are plain (printable ASCII): the width of a
    text is its length, and no cell spans lines. *)

Module Tabulate.

(** A Python float: a finite value [(-1)^negative * m * 2^e] (every finite
    double is one), an infinity, or a NaN. *)
Inductive PyFloat : Type :=
| Finite (negative : bool) (m : N) (e : Z)
| Infinite (negative : bool)
| NaN.

(** The values of a table: Python ints and floats. *)
Inductive Number : Type :=
| Int (z : Z)
| Float (x : PyFloat).

(** The integer nearest to [n / d] ([d > 0]), a tie going to the even one. *)
Definition round_half_even (n d : N) : N :=
  let q := (n / d)%N in
  match (2 * (n mod d) ?= d)%N with
  | Lt => q
  | Gt => (q + 1)%N
  | Eq => if N.even q then q else (q + 1)%N
  end.

(** [m * 2^e] in thousandths, correctly rounded. *)
Definition thousandths (m : N) (e : Z) : N :=
  match e with
  | Z.neg p => round_half_even (m * 1000) (2 ^ N.pos p)
  | _ => (m * 1000 * 2 ^ Z.to_N e)%N
  end.

Definition digit (n : N) : ascii := ascii_of_N (48 + n).

Definition three_digits (n : N) : string :=
  String (digit (n / 100)) (String (digit (n / 10 mod 10)) (String (digit (n mod 10)) "")).

(** [format(x, ".3f")]: the sign of the float, the integer part, a point
    and three digits; infinities and NaN have no digits. *)
Definition format_3f (x : PyFloat) : string :=
  match x with
  | Finite negative m e =>
      let q := thousandths m e in
      (if negative then "-" else "") +:+ pretty (q / 1000)%N +:+ "." +:+
      three_digits (q mod 1000)
  | Infinite negative => if negative then "-inf" else "inf"
  | NaN => "nan"
  end.

(** [_format(val, valtype, floatfmt, intfmt, ...)]: a cell of an int column
    is [format(val, "")], one of a float column [format(float(val), floatfmt)].
    A column of one cell has the type of its cell. *)
Definition format_value (v : Number) : string :=
  match v with
  | Int z => pretty z
  | Float x => format_3f x
  end.

Inductive Align : Type := AlignLeft | AlignCenter | AlignRight.

Fixpoint spaces (n : nat) : string :=
  match n with
  | O => ""
  | S n' => String " " (spaces n')
  end.

Fixpoint dashes (n : nat) : string :=
  match n with
  | O => ""
  | S n' => String "-" (dashes n')
  end.

(** [_padleft], [_padright], [_padboth]: [format(s, ">w")], ["<w"], ["^w"];
    centring puts the odd space on the right. *)
Definition padleft (width : nat) (s : string) : string :=
  spaces (width - String.length s) +:+ s.

Definition padright (width : nat) (s : string) : string :=
  s +:+ spaces (width - String.length s).

Definition padboth (width : nat) (s : string) : string :=
  let pad := (width - String.length s)%nat in
  let lpad := (pad / 2)%nat in
  spaces lpad +:+ s +:+ spaces (pad - lpad).

Definition padfn (a : Align) : nat -> string -> string :=
  match a with
  | AlignLeft => padright
  | AlignCenter => padboth
  | AlignRight => padleft
  end.

(** [_align_column] for a column of one cell: padded to the wider of the
    cell and [minwidth]. (The cell is stripped first; the text of a number
    has no blanks to strip.) *)
Definition align_column (a : Align) (cell : string) (minwidth : nat) : string :=
  padfn a (Nat.max (String.length cell) minwidth) cell.

(** [_align_header]. *)
Definition align_header (a : Align) (header : string) (width : nat) : string :=
  padfn a width header.

(** [_pad_row(cells, padding)] with the pipe format's padding of 1. *)
Definition pad_row (cells : list string) : list string :=
  map (fun cell => " " +:+ cell +:+ " ") cells.

(** [_build_simple_row] with [DataRow("|", "|", "|")]. (The row is
    right-stripped; it ends in a bar.) *)
Definition build_row (padded_cells : list string) : string :=
  "|" +:+ String.concat "|" padded_cells +:+ "|".

(** [_pipe_segment_with_colons(align, colwidth)]. *)
Definition pipe_segment_with_colons (a : Align) (colwidth : nat) : string :=
  match a with
  | AlignRight => dashes (colwidth - 1) +:+ ":"
  | AlignCenter => ":" +:+ dashes (colwidth - 2) +:+ ":"
  | AlignLeft => ":" +:+ dashes (colwidth - 1)
  end.

(** [_pipe_line_with_colons(colwidths, colaligns)]. *)
Definition pipe_line_with_colons (colwidths : list nat) (a : Align) : string :=
  "|" +:+ String.concat "|" (map (pipe_segment_with_colons a) colwidths) +:+ "|".

Definition newline : string := String (ascii_of_nat 10) "".

(** [_format_table] for the pipe format, with headers and one row: the
    line above is hidden, the header row, the line below it, the row. *)
Definition format_table (headers row : list string) (colwidths : list nat)
    (a : Align) : string :=
  let padded_widths := map (fun w => (w + 2)%nat) colwidths in
  String.concat newline
    [ build_row (pad_row headers);
      pipe_line_with_colons padded_widths a;
      build_row (pad_row row) ].

Definition MIN_PADDING : nat := 2.

(** [tabulate([row], headers=headers, tablefmt="pipe", floatfmt=".3f",
    stralign=stralign, numalign=numalign)] for as many headers as cells.
    Every column holds a number, so every column, and its header with it,
    is aligned by [numalign]. *)
Definition tabulate (row : list Number) (headers : list string)
    (stralign numalign : Align) : string :=
  let cells := map format_value row in
  let minwidths := map (fun h => (String.length h + MIN_PADDING)%nat) headers in
  let cols := zip_with (align_column numalign) cells minwidths in
  let minwidths := zip_with (fun minw c => Nat.max minw (String.length c)) minwidths cols in
  let headers := zip_with (align_header numalign) headers minwidths in
  format_table headers cols minwidths numalign.

(** *** The layout, said column by column *)

(** Printable ASCII: the texts the model of [tabulate] is for. *)
Definition plain_char (c : ascii) : bool :=
  (32 <=? nat_of_ascii c)%nat && (nat_of_ascii c <=? 126)%nat.

Fixpoint plain (s : string) : bool :=
  match s with
  | EmptyString => true
  | String c s' => plain_char c && plain s'
  end.


(** A row of a pipe table: a bar, then each cell between two blanks and
    closed by a bar. *)
Fixpoint pipe_cells (cells : list string) : string :=
  match cells with
  | [] => ""
  | cell :: rest => " " +:+ cell +:+ " |" +:+ pipe_cells rest
  end.

Definition pipe_row (cells : list string) : string := "|" +:+ pipe_cells cells.

(** The rule under the header: per column of width [w], a colon on both
    sides of [w] dashes, the mark of a centred column. *)
Fixpoint pipe_rule_segments (widths : list nat) : string :=
  match widths with
  | [] => ""
  | w :: rest => ":" +:+ dashes w +:+ ":|" +:+ pipe_rule_segments rest
  end.

Definition pipe_rule (widths : list nat) : string :=
  "|" +:+ pipe_rule_segments widths.

Definition is_digit (c : ascii) : bool :=
  (48 <=? nat_of_ascii c)%nat && (nat_of_ascii c <=? 57)%nat.

Fixpoint all_digits (s : string) : bool :=
  match s with
  | EmptyString => true
  | String c s' => is_digit c && all_digits s'
  end.


(** One column of the table of [create_small_table]: its width, its header
    cell and its data cell. *)
Record Column : Type := {
  col_width : nat;
  col_header : string;
  col_cell : string
}.

Definition column (a : Align) (item : string * Number) : Column :=
  let (key, value) := item in
  let minwidth := (String.length key + MIN_PADDING)%nat in
  let cell := align_column a (format_value value) minwidth in
  let width := Nat.max minwidth (String.length cell) in
  {| col_width := width; col_header := align_header a key width; col_cell := cell |}.

(** A text on one line: no line feed in it. *)
Fixpoint single_line (s : string) : bool :=
  match s with
  | EmptyString => true
  | String c s' => negb (Ascii.eqb c (ascii_of_nat 10)) && single_line s'
  end.

(** The length of a line of the table of [d]: the opening bar, and per
    column its width, the two blanks around the cell and the closing bar. *)
Fixpoint table_width (d : list (string * Number)) : nat :=
  match d with
  | [] => 1
  | (key, value) :: rest =>
      (Nat.max (String.length key + 2) (String.length (format_value value)) + 3 +
       table_width rest)%nat
  end.

(** *** The default format, as [collect_env] calls it

    [tabulate(rows)] with no headers and every default: the "simple"
    format, for rows of two cells whose columns are both of type [str]
    (some cell of each column is no number and no bool), so that a cell is
    shown as [str] gives it and aligned left. Texts are plain, as above. *)

(** [s.rstrip()], [s.lstrip()] and [s.strip()] on plain text, where the
    only white space is the blank. *)
Fixpoint rstrip (s : string) : string :=
  match s with
  | EmptyString => EmptyString
  | String c s' =>
      match rstrip s' with
      | EmptyString => if Ascii.eqb c " " then EmptyString else String c EmptyString
      | t => String c t
      end
  end.

Fixpoint lstrip (s : string) : string :=
  match s with
  | EmptyString => EmptyString
  | String c s' => if Ascii.eqb c " " then lstrip s' else s
  end.

Definition strip (s : string) : string := lstrip (rstrip s).

(** [max(max(widths), minwidth)] of [_align_column] with [minwidth = 0]. *)
Definition max_width (cells : list string) : nat :=
  fold_right Nat.max 0%nat (map String.length cells).

(** [_build_simple_row] with the simple format's [DataRow("", "  ", "")]:
    the cells joined by two blanks, right-stripped. *)
Definition build_simple_row (cells : list string) : string :=
  rstrip (String.concat "  " cells).

(** The simple format's [Line("", "-", "  ", "")]. *)
Definition simple_line (colwidths : list nat) : string :=
  build_simple_row (map dashes colwidths).

(** [tabulate(rows)] for at least one row: each column stripped and padded
    on the right to its widest cell; a line of dashes above and below. *)
Definition tabulate_simple (rows : list (string * string)) : string :=
  let col1 := map (fun row => strip (fst row)) rows in
  let col2 := map (fun row => strip (snd row)) rows in
  let w1 := max_width col1 in
  let w2 := max_width col2 in
  let col1 := map (padright w1) col1 in
  let col2 := map (padright w2) col2 in
  let lines := zip_with (fun c1 c2 => build_simple_row [c1; c2]) col1 col2 in
  String.concat newline ([simple_line [w1; w2]] ++ lines ++ [simple_line [w1; w2]]).

(** The row of a label and a value in columns of widths [w1] and [w2]. *)
Definition entry_line (w1 w2 : nat) (label value : string) : string :=
  rstrip (padright w1 (strip label) +:+ "  " +:+ padright w2 (strip value)).

(** A character that a Python int or float literal can hold. *)
Definition numeric_char (c : ascii) : bool :=
  is_digit c ||
  existsb (Ascii.eqb c)
    (String.list_ascii_of_string "+-._eEinfatyINFATY ").

Fixpoint has_other_char (s : string) : bool :=
  match s with
  | EmptyString => false
  | String c s' => negb (numeric_char c) || has_other_char s'
  end.

(** A text that tabulate types as [str]: it does not parse as an int or a
    float, having a character no such literal holds, and is not the text
    of a bool. *)
Definition textual (s : string) : bool :=
  has_other_char s && negb (String.eqb s "True") && negb (String.eqb s "False").

End Tabulate.

(** ** create_small_table *)

Module SmallTable.
Import Tabulate.

(** A dictionary with [str] keys and number values, as its iteration
    order lists it. It is the state of the call: the object the caller
    passed, which the function could write to. *)
Definition Dict : Type := list (string * Number).

(** [small_dict.items()], read out. *)
Definition dict_items : Call Dict (list (string * Number)) := gets (fun d => d).

(** [tuple(zip( *pairs))] for 2-tuples: [zip] yields as many tuples as its
    shortest argument has elements, so the firsts and the seconds; of no
    argument at all it yields nothing. *)
Definition zip_star {A B} (pairs : list (A * B)) : list (list A + list B) :=
  match pairs with
  | [] => []
  | _ :: _ => [inl (map fst pairs); inr (map snd pairs)]
  end.

(** [keys, values = t]: a tuple of any other length than two is a
    ValueError. *)
Definition unpack2 {A B} (t : list (list A + list B)) : Outcome (list A * list B) :=
  match t with
  | [inl ks; inr vs] => Returned (ks, vs)
  | _ => Raised ValueError
  end.

Definition create_small_table : Call Dict string :=
  items <- dict_items ;;
  kv <- lift (unpack2 (zip_star items)) ;;
  let (keys, values) := kv : list string * list Number in
  ret (tabulate values keys AlignCenter AlignCenter).

(** 0.5 and 0.8 as doubles. *)
Definition half : PyFloat := Finite false 1 (-1).
Definition four_fifths : PyFloat := Finite false 3602879701896397 (-52).

Definition ap_dict : Dict := [("AP", Float half); ("AP50", Float four_fifths)].

End SmallTable.

(** ** collect_env *)

Module CollectEnv.

(** What the introspection calls of [collect_env] return in a process. *)
Record Runtime : Type := {
  sys_platform : string;
  sys_version : string;
  np_version : string;                    (* np.__version__ *)
  cuda_is_available : bool;               (* torch.cuda.is_available() *)
  cuda_device_count : nat;                (* torch.cuda.device_count() *)
  cuda_get_device_name : nat -> string;   (* torch.cuda.get_device_name(k) *)
  torch_version : string;                 (* torch.__version__ *)
  torchvision_version : option string;    (* None: the import raises ModuleNotFoundError *)
  cv2_version : option string;            (* None: the import raises ModuleNotFoundError *)
  torch_config_show : string              (* torch.__config__.show() *)
}.

(** The second component of an entry of [env_info]: a string, or the
    bool of "CUDA available". *)
Inductive Value : Type :=
| Text (s : string)
| Bool (b : bool).

(** [s.replace("\n", "")]. *)
Fixpoint remove_newlines (s : string) : string :=
  match s with
  | EmptyString => EmptyString
  | String c s' =>
      if Ascii.eqb c (ascii_of_nat 10) then remove_newlines s'
      else String c (remove_newlines s')
  end.

(** A [defaultdict(list)], in insertion order. *)
Definition DefaultDict : Type := list (string * list string).

(** [devices[name].append(id)]: a missing key is inserted, at the end, with
    an empty list first. *)
Fixpoint append_to (name id : string) (devices : DefaultDict) : DefaultDict :=
  match devices with
  | [] => [(name, [id])]
  | (n, ids) :: rest =>
      if String.eqb n name then (n, ids ++ [id]) :: rest
      else (n, ids) :: append_to name id rest
  end.

(** Lines 44-46: the loop over [range(torch.cuda.device_count())]. *)
Definition group_devices (r : Runtime) : DefaultDict :=
  fold_left
    (fun devices k => append_to (cuda_get_device_name r k) (pretty k) devices)
    (seq 0 (cuda_device_count r)) [].

(** Lines 47-48: one entry per key of [devices]. *)
Definition gpu_entries (r : Runtime) : list (string * Value) :=
  map (fun item : string * list string =>
         let (name, device_ids) := item in
         ("GPU " +:+ String.concat "," device_ids, Text name))
      (group_devices r).

Definition optional_entry (label : string) (version : option string)
  : list (string * Value) :=
  match version with
  | Some v => [(label, Text v)]
  | None => []
  end.

(** Lines 35-62: [env_info] as the function has built it before rendering. *)
Definition env_info (r : Runtime) : list (string * Value) :=
  [ ("sys.platform", Text (sys_platform r));
    ("Python", Text (remove_newlines (sys_version r)));
    ("Numpy", Text (np_version r));
    ("CUDA available", Bool (cuda_is_available r)) ]
  ++ (if cuda_is_available r then gpu_entries r else [])
  ++ [ ("PyTorch", Text (torch_version r)) ]
  ++ optional_entry "TorchVision" (torchvision_version r)
  ++ optional_entry "OpenCV" (cv2_version r).

(** *** The grouping, said name by name *)

(** The names of a list, each once, in the order of first appearance. *)
Fixpoint distinct (names : list string) : list string :=
  match names with
  | [] => []
  | n :: rest => n :: filter (fun m => m <> n) (distinct rest)
  end.

(** The devices of name [name] among [ks], in the order of [ks]. *)
Definition named (get_name : nat -> string) (name : string) (ks : list nat)
  : list nat :=
  filter (fun k => get_name k = name) ks.

(** The device indices, ascending, and the device names, each once. *)
Definition device_indices (r : Runtime) : list nat :=
  seq 0 (cuda_device_count r).

Definition device_names (r : Runtime) : list string :=
  distinct (map (cuda_get_device_name r) (device_indices r)).

(** The entry of one device name: "GPU " and the comma-joined indices of
    the devices of that name. *)
Definition gpu_entry (r : Runtime) (name : string) : string * Value :=
  ("GPU " +:+
   String.concat "," (map pretty (named (cuda_get_device_name r) name (device_indices r))),
   Text name).

(** An entry whose label starts with "GPU". *)
Definition is_gpu_entry (entry : string * Value) : Prop :=
  String.prefix "GPU" (fst entry) = true.

#[export] Instance is_gpu_entry_dec (entry : string * Value) :
  Decision (is_gpu_entry entry).
Proof. unfold is_gpu_entry. apply _. Defined.

(** [str(value)], which is how tabulate shows a cell of a [str] column. *)
Definition value_text (value : Value) : string :=
  match value with
  | Text s => s
  | Bool true => "True"
  | Bool false => "False"
  end.

(** Lines 64-66: the table of the entries, a line feed, the build string. *)
Definition collect_env (r : Runtime) : string :=
  Tabulate.tabulate_simple
    (map (fun entry => (fst entry, value_text (snd entry))) (env_info r))
  +:+ Tabulate.newline +:+ torch_config_show r.

(** The line of an entry in the table, for columns of widths [w1], [w2]. *)
Definition report_line (w1 w2 : nat) (entry : string * Value) : string :=
  Tabulate.entry_line w1 w2 (fst entry) (value_text (snd entry)).

(** The processes the model of the table is for: every value is plain
    text, and the platform name is no number, which makes the value column
    one of type [str]. *)
Definition reportable (r : Runtime) : Prop :=
  Tabulate.textual (sys_platform r) = true /\
  Forall (fun entry => Tabulate.plain (value_text (snd entry)) = true) (env_info r).

(** A machine with two devices of one name. *)
Definition two_gpus : Runtime := {|
  sys_platform := "linux";
  sys_version := "3.8.10";
  np_version := "1.21.0";
  cuda_is_available := true;
  cuda_device_count := 2;
  cuda_get_device_name := fun _ => "Tesla V100";
  torch_version := "1.9.0";
  torchvision_version := None;
  cv2_version := None;
  torch_config_show := "PyTorch built with: ..."
|}.

(** A machine with two devices of one name and a third of another. *)
Definition three_gpus : Runtime := {|
  sys_platform := "linux";
  sys_version := "3.8.10 (default)" +:+ Tabulate.newline +:+ "[GCC 9.4.0]";
  np_version := "1.21.0";
  cuda_is_available := true;
  cuda_device_count := 3;
  cuda_get_device_name := fun k => if Nat.eqb k 1 then "Tesla T4" else "Tesla V100";
  torch_version := "1.9.0";
  torchvision_version := Some "0.10.0";
  cv2_version := None;
  torch_config_show := "PyTorch built with: ..."
|}.

End CollectEnv.

(** * Part II: the proofs *)

(** ** set_random_seed *)

Module SeedSetterProofs.
Import SeedSetter.

Section WithGenerators.
Context `{G : Generators}.

Lemma seed_invalid_int (z : Z) :
  seed_invalid (PyInt z) = Returned (negb ((0 <=? z) && (z <=? 2 ^ 32 - 1))).
Proof.
  unfold seed_invalid, int_le_obj, obj_le_int, min_seed_value, max_seed_value.
  destruct (0 <=? z); reflexivity.
Qed.

(** Only an int of the range passes the test of line 78. *)
Lemma seed_invalid_false (seed : PyObj) :
  seed_invalid seed = Returned false ->
  exists z, seed = PyInt z /\ 0 <= z <= 2 ^ 32 - 1.
Proof.
  destruct seed as [|z|s]; [discriminate| |discriminate].
  rewrite seed_invalid_int. intros [= H].
  apply negb_false_iff, andb_true_iff in H as [H1 H2].
  exists z. split; [reflexivity|]. lia.
Qed.

Lemma resolve_seed_valid (z : Z) (w : World) :
  0 <= z <= 2 ^ 32 - 1 -> resolve_seed (PyInt z) w = (Returned z, w).
Proof.
  intros Hz. unfold resolve_seed, bind, lift. rewrite seed_invalid_int.
  replace ((0 <=? z) && (z <=? 2 ^ 32 - 1)) with true; [reflexivity|].
  symmetry. apply andb_true_iff. lia.
Qed.

Lemma resolve_seed_none (w : World) :
  resolve_seed PyNone w =
  (Returned (fst (replaced PyNone w)), snd (replaced PyNone w)).
Proof.
  unfold replaced, resolve_seed, bind, lift, random_randint, logger_warning,
    modify, ret.
  cbn [seed_invalid fst snd]. unfold min_seed_value, max_seed_value.
  destruct (randint 0 (2 ^ 32 - 1) (random_state w)) as [n g]. reflexivity.
Qed.

Lemma resolve_seed_out_of_range (z : Z) (w : World) :
  ~ (0 <= z <= 2 ^ 32 - 1) ->
  resolve_seed (PyInt z) w =
  (Returned (fst (replaced (PyInt z) w)), snd (replaced (PyInt z) w)).
Proof.
  intros Hz.
  unfold replaced, resolve_seed, bind, lift, random_randint, logger_warning,
    modify, ret.
  rewrite seed_invalid_int.
  replace ((0 <=? z) && (z <=? 2 ^ 32 - 1)) with false.
  - cbn [negb fst snd]. unfold min_seed_value, max_seed_value.
    destruct (randint 0 (2 ^ 32 - 1) (random_state w)) as [n g]. reflexivity.
  - symmetry. apply andb_false_iff. lia.
Qed.

Lemma replaced_in_range (seed : PyObj) (w : World) :
  0 <= fst (replaced seed w) <= 2 ^ 32 - 1.
Proof. unfold replaced. cbn [fst]. apply randint_range. lia. Qed.

Lemma apply_seed_in_range (s : Z) (deterministic : bool) (w : World) :
  0 <= s <= 2 ^ 32 - 1 ->
  apply_seed s deterministic w = (Returned tt, seeded_world s deterministic w).
Proof.
  intros Hs. run_call.
  replace ((0 <=? s) && (s <=? 2 ^ 32 - 1)) with true
    by (symmetry; apply andb_true_iff; lia).
  replace ((- 2 ^ 63 <=? s) && (s <=? 2 ^ 64 - 1)) with true
    by (symmetry; apply andb_true_iff; lia).
  destruct deterministic; reflexivity.
Qed.

(** The whole call on a seed of the range: no draw, no warning. *)
Lemma set_random_seed_valid (z : Z) (deterministic : bool) (w : World) :
  0 <= z <= 2 ^ 32 - 1 ->
  set_random_seed (PyInt z) deterministic w =
  (Returned tt, seeded_world z deterministic w).
Proof.
  intros Hz. unfold set_random_seed, bind.
  rewrite resolve_seed_valid by exact Hz. apply apply_seed_in_range, Hz.
Qed.

(** The whole call on [None] or an int outside the range. *)
Lemma set_random_seed_invalid (seed : PyObj) (deterministic : bool) (w : World) :
  seed = PyNone \/ (exists z, seed = PyInt z /\ ~ (0 <= z <= 2 ^ 32 - 1)) ->
  set_random_seed seed deterministic w =
  (Returned tt,
   seeded_world (fst (replaced seed w)) deterministic (snd (replaced seed w))).
Proof.
  intros Hseed. unfold set_random_seed, bind.
  assert (resolve_seed seed w =
          (Returned (fst (replaced seed w)), snd (replaced seed w))) as ->.
  { destruct Hseed as [->|(z & -> & Hz)].
    - apply resolve_seed_none.
    - apply resolve_seed_out_of_range, Hz. }
  apply apply_seed_in_range, replaced_in_range.
Qed.

(** A [str] seed stops the call at the comparison of line 78. *)
Lemma set_random_seed_str (s : string) (deterministic : bool) (w : World) :
  set_random_seed (PyStr s) deterministic w = (Raised TypeError, w).
Proof. reflexivity. Qed.

(** C1. A seed that is an integer of [0, 2^32 - 1] is the resolved seed,
    unchanged, and nothing is drawn or logged. For [None] and for an integer
    outside the range, the resolved seed is the draw [random.randint(0,
    2^32 - 1)], which lies in the range, and a warning naming the rejected
    value and the replacement is logged. In both cases the rest of the call
    runs on the resolved seed. *)
Theorem seed_resolution (w : World) :
  (forall z, 0 <= z <= 2 ^ 32 - 1 ->
     resolve_seed (PyInt z) w = (Returned z, w) /\
     forall deterministic,
       set_random_seed (PyInt z) deterministic w = apply_seed z deterministic w) /\
  (forall seed,
     seed = PyNone \/ (exists z, seed = PyInt z /\ ~ (0 <= z <= 2 ^ 32 - 1)) ->
     exists n g,
       randint 0 (2 ^ 32 - 1) (random_state w) = (n, g) /\
       0 <= n <= 2 ^ 32 - 1 /\
       let w1 :=
         set_log
           (log w ++
            [(WARNING,
              "Got invalid seed: " +:+ py_str seed +:+
              ", use the generated seed: " +:+ pretty n)])
           (set_random_state g w) in
       resolve_seed seed w = (Returned n, w1) /\
       forall deterministic,
         set_random_seed seed deterministic w = apply_seed n deterministic w1).
Proof.
  split.
  - intros z Hz. split; [apply resolve_seed_valid, Hz|].
    intros deterministic. unfold set_random_seed, bind.
    rewrite resolve_seed_valid by exact Hz. reflexivity.
  - intros seed Hseed.
    assert (resolve_seed seed w =
            (Returned (fst (replaced seed w)), snd (replaced seed w))) as Hres.
    { destruct Hseed as [->|(z & -> & Hz)].
      - apply resolve_seed_none.
      - apply resolve_seed_out_of_range, Hz. }
    pose proof (replaced_in_range seed w) as Hrange.
    unfold replaced in Hres, Hrange. cbn [fst snd] in Hres, Hrange.
    destruct (randint 0 (2 ^ 32 - 1) (random_state w)) as [n g] eqn:Hdraw.
    cbn [fst snd] in Hres, Hrange.
    exists n, g. split; [reflexivity|]. split; [exact Hrange|].
    cbn zeta. split; [exact Hres|].
    intros deterministic. unfold set_random_seed, bind. rewrite Hres.
    reflexivity.
Qed.

(** C4. For a seed of the declared type, the call returns, and the one
    resolved seed is what all three generators are seeded with and what
    [PYTHONHASHSEED] is set to, in decimal. *)
Theorem seed_applied_to_all (seed : option Z) (deterministic : bool) (w : World) :
  exists s w1 w',
    resolve_seed (optional_int seed) w = (Returned s, w1) /\
    set_random_seed (optional_int seed) deterministic w = (Returned tt, w') /\
    random_state w' = py_seeded s /\
    np_random_state w' = np_seeded s /\
    torch_state w' = torch_seeded s /\
    environ w' = <["PYTHONHASHSEED" := pretty s]> (environ w).
Proof.
  destruct seed as [z|]; cbn [optional_int];
    [destruct (decide (0 <= z <= 2 ^ 32 - 1)) as [Hz|Hz]|].
  - exists z, w, (seeded_world z deterministic w).
    rewrite resolve_seed_valid, set_random_seed_valid by exact Hz.
    repeat split.
  - eexists _, _, _. rewrite resolve_seed_out_of_range by exact Hz.
    rewrite set_random_seed_invalid by (right; exists z; auto).
    repeat split.
  - eexists _, _, _. rewrite resolve_seed_none.
    rewrite set_random_seed_invalid by (left; reflexivity).
    repeat split.
Qed.

(** The call on a seed of the declared type returns, in a state whose cudnn
    flags are set when [deterministic] is true and the old ones otherwise. *)
Lemma set_random_seed_optional (seed : option Z) (deterministic : bool) (w : World) :
  exists w',
    set_random_seed (optional_int seed) deterministic w = (Returned tt, w') /\
    cudnn_benchmark w' = (if deterministic then false else cudnn_benchmark w) /\
    cudnn_deterministic w' = (if deterministic then true else cudnn_deterministic w).
Proof.
  destruct seed as [z|]; cbn [optional_int];
    [destruct (decide (0 <= z <= 2 ^ 32 - 1)) as [Hz|Hz]|].
  - eexists. rewrite set_random_seed_valid by exact Hz. repeat split.
  - eexists. rewrite set_random_seed_invalid by (right; exists z; auto).
    repeat split.
  - eexists. rewrite set_random_seed_invalid by (left; reflexivity).
    repeat split.
Qed.

(** C5. With [deterministic] true the call leaves [cudnn.benchmark] false
    and [cudnn.deterministic] true; with [deterministic] false both flags
    are as they were before the call, whatever the seed, also when the call
    raises. *)
Theorem cudnn_flags (w : World) :
  (forall seed : option Z, exists w',
     set_random_seed (optional_int seed) true w = (Returned tt, w') /\
     cudnn_benchmark w' = false /\ cudnn_deterministic w' = true) /\
  (forall seed : option Z, exists w',
     set_random_seed (optional_int seed) false w = (Returned tt, w') /\
     cudnn_benchmark w' = cudnn_benchmark w /\
     cudnn_deterministic w' = cudnn_deterministic w) /\
  (forall seed : PyObj,
     cudnn_benchmark (snd (set_random_seed seed false w)) = cudnn_benchmark w /\
     cudnn_deterministic (snd (set_random_seed seed false w)) = cudnn_deterministic w).
Proof.
  split; [|split].
  - intros seed. apply (set_random_seed_optional seed true w).
  - intros seed. apply (set_random_seed_optional seed false w).
  - intros [|z|s].
    + rewrite set_random_seed_invalid by (left; reflexivity). split; reflexivity.
    + destruct (decide (0 <= z <= 2 ^ 32 - 1)) as [Hz|Hz].
      * rewrite set_random_seed_valid by exact Hz. split; reflexivity.
      * rewrite set_random_seed_invalid by (right; exists z; auto).
        split; reflexivity.
    + rewrite set_random_seed_str. split; reflexivity.
Qed.

(** C3, amended. For [None] and for every integer the call returns; when
    the seed is [None] or outside [0, 2^32 - 1], a warning is logged and the
    generators are seeded with the drawn replacement, which lies in the
    range. *)
Theorem set_random_seed_never_raises_on_optional_int
    (seed : option Z) (deterministic : bool) (w : World) :
  returns (fst (set_random_seed (optional_int seed) deterministic w)) /\
  (seed = None \/ (exists z, seed = Some z /\ ~ (0 <= z <= 2 ^ 32 - 1)) ->
   exists n w',
     set_random_seed (optional_int seed) deterministic w = (Returned tt, w') /\
     0 <= n <= 2 ^ 32 - 1 /\
     log w' = log w ++ [(WARNING, warning_text (optional_int seed) n)] /\
     random_state w' = py_seeded n /\
     np_random_state w' = np_seeded n /\
     torch_state w' = torch_seeded n).
Proof.
  split.
  - destruct (set_random_seed_optional seed deterministic w) as (w' & -> & _).
    exists tt. reflexivity.
  - intros Hseed.
    assert (optional_int seed = PyNone \/
            (exists z, optional_int seed = PyInt z /\ ~ (0 <= z <= 2 ^ 32 - 1)))
      as Hobj.
    { destruct Hseed as [->|(z & -> & Hz)]; [left|right; exists z]; auto. }
    exists (fst (replaced (optional_int seed) w)),
      (seeded_world (fst (replaced (optional_int seed) w)) deterministic
         (snd (replaced (optional_int seed) w))).
    rewrite set_random_seed_invalid by exact Hobj.
    split; [reflexivity|]. split; [apply replaced_in_range|]. repeat split.
Qed.

(** Two calls with one seed of the range leave the three generators in
    the same states, whatever the processes were before. *)
Theorem same_seed_same_generators (s : Z) (d1 d2 : bool) (w1 w2 : World) :
  0 <= s <= 2 ^ 32 - 1 ->
  random_state (snd (set_random_seed (PyInt s) d1 w1)) =
    random_state (snd (set_random_seed (PyInt s) d2 w2)) /\
  np_random_state (snd (set_random_seed (PyInt s) d1 w1)) =
    np_random_state (snd (set_random_seed (PyInt s) d2 w2)) /\
  torch_state (snd (set_random_seed (PyInt s) d1 w1)) =
    torch_state (snd (set_random_seed (PyInt s) d2 w2)).
Proof.
  intros Hs. rewrite !set_random_seed_valid by exact Hs. repeat split.
Qed.

(** *** Further properties of the call *)

(** The call on a seed of the declared type, in one equation. *)
Lemma set_random_seed_resolved (seed : option Z) (deterministic : bool) (w : World) :
  set_random_seed (optional_int seed) deterministic w =
    (Returned tt,
     seeded_world (fst (resolved seed w)) deterministic (snd (resolved seed w))) /\
  0 <= fst (resolved seed w) <= 2 ^ 32 - 1.
Proof.
  unfold resolved. destruct seed as [z|]; cbn [optional_int];
    [destruct (decide (0 <= z <= 2 ^ 32 - 1)) as [Hz|Hz]|].
  - cbn [fst snd]. split; [apply set_random_seed_valid, Hz|exact Hz].
  - split; [|apply replaced_in_range].
    apply set_random_seed_invalid. right. exists z. auto.
  - split; [|apply replaced_in_range].
    apply set_random_seed_invalid. left. reflexivity.
Qed.

Lemma resolved_frame (seed : option Z) (w : World) :
  environ (snd (resolved seed w)) = environ w /\
  cudnn_benchmark (snd (resolved seed w)) = cudnn_benchmark w /\
  cudnn_deterministic (snd (resolved seed w)) = cudnn_deterministic w.
Proof.
  unfold resolved. destruct seed as [z|];
    [destruct (decide (0 <= z <= 2 ^ 32 - 1))|]; repeat split.
Qed.

Lemma optional_int_cases (seed : PyObj) :
  (exists o, seed = optional_int o) \/ (exists s, seed = PyStr s).
Proof.
  destruct seed as [|z|s].
  - left. exists None. reflexivity.
  - left. exists (Some z). reflexivity.
  - right. exists s. reflexivity.
Qed.

(** The only exception of the call is the TypeError of comparing a [str]:
    the range test keeps every seed that reaches numpy and torch inside
    what they accept, so their ValueError and RuntimeError never occur. A
    call that raises has changed nothing. *)
Theorem set_random_seed_outcomes (seed : PyObj) (deterministic : bool) (w : World) :
  (fst (set_random_seed seed deterministic w) = Returned tt /\
   exists o, seed = optional_int o) \/
  (set_random_seed seed deterministic w = (Raised TypeError, w) /\
   exists s, seed = PyStr s).
Proof.
  destruct (optional_int_cases seed) as [[o ->]|[s ->]].
  - left. destruct (set_random_seed_resolved o deterministic w) as [-> _].
    split; [reflexivity|]. exists o. reflexivity.
  - right. split; [apply set_random_seed_str|]. exists s. reflexivity.
Qed.

(** No other environment variable than PYTHONHASHSEED is written, whatever
    the seed and whether the call returns or raises. *)
Theorem environ_frame (seed : PyObj) (deterministic : bool) (w : World)
    (key : string) :
  key <> "PYTHONHASHSEED" ->
  environ (snd (set_random_seed seed deterministic w)) !! key = environ w !! key.
Proof.
  intros Hkey. destruct (optional_int_cases seed) as [[o ->]|[s ->]].
  - destruct (set_random_seed_resolved o deterministic w) as [-> _].
    destruct (resolved_frame o w) as (Henv & _).
    cbn [snd seeded_world environ].
    rewrite lookup_insert_ne by congruence. rewrite Henv. reflexivity.
  - rewrite set_random_seed_str. reflexivity.
Qed.

(** Seeding again with the same seed of the range and the same flag
    changes nothing more: the second call leaves the state of the first. *)
Theorem set_random_seed_twice (z : Z) (deterministic : bool) (w : World) :
  0 <= z <= 2 ^ 32 - 1 ->
  set_random_seed (PyInt z) deterministic
    (snd (set_random_seed (PyInt z) deterministic w)) =
  set_random_seed (PyInt z) deterministic w.
Proof.
  intros Hz. rewrite !set_random_seed_valid by exact Hz. cbn [snd].
  f_equal. unfold seeded_world. cbn [environ cudnn_benchmark cudnn_deterministic log].
  rewrite insert_insert_eq. destruct deterministic; reflexivity.
Qed.

(** The function only ever turns determinism on: after a call with
    [deterministic] true, a later call with [deterministic] false, on
    whatever seed, leaves cudnn deterministic and out of benchmark mode. *)
Theorem deterministic_is_sticky (seed1 seed2 : option Z) (w : World) :
  let w1 := snd (set_random_seed (optional_int seed1) true w) in
  let w2 := snd (set_random_seed (optional_int seed2) false w1) in
  cudnn_benchmark w2 = false /\ cudnn_deterministic w2 = true.
Proof.
  cbn zeta.
  destruct (set_random_seed_resolved seed1 true w) as [-> _]. cbn [snd].
  set (w1 := seeded_world _ true _).
  destruct (set_random_seed_resolved seed2 false w1) as [-> _]. cbn [snd].
  destruct (resolved_frame seed2 w1) as (_ & Hbench & Hdet).
  cbn [seeded_world cudnn_benchmark cudnn_deterministic].
  rewrite Hbench, Hdet. split; reflexivity.
Qed.

(** A warning is logged exactly when the seed is replaced: the log is as
    it was if and only if the seed is an int of the range, and otherwise it
    has one record more. *)
Theorem warning_iff_replaced (seed : option Z) (deterministic : bool) (w : World) :
  (log (snd (set_random_seed (optional_int seed) deterministic w)) = log w <->
   exists z, seed = Some z /\ 0 <= z <= 2 ^ 32 - 1) /\
  ((forall z, seed = Some z -> ~ (0 <= z <= 2 ^ 32 - 1)) ->
   length (log (snd (set_random_seed (optional_int seed) deterministic w))) =
   S (length (log w))).
Proof.
  destruct (set_random_seed_resolved seed deterministic w) as [-> _].
  cbn [snd seeded_world log]. unfold resolved.
  assert (forall x n g, log (after_replacement x n g w) <> log w) as Hgrows.
  { intros x n g Heq. apply (f_equal length) in Heq.
    unfold after_replacement in Heq. cbn [set_log log] in Heq.
    rewrite length_app in Heq. cbn [length] in Heq. lia. }
  destruct seed as [z|]; [destruct (decide (0 <= z <= 2 ^ 32 - 1)) as [Hz|Hz]|].
  - cbn [snd]. split.
    + split; [intros _; exists z; auto|reflexivity].
    + intros Hout. destruct (Hout z eq_refl Hz).
  - unfold replaced. cbn [snd]. split.
    + split; [intros Heq; destruct (Hgrows _ _ _ Heq)|].
      intros (z' & [= <-] & Hz'). contradiction.
    + intros _. unfold after_replacement. cbn [set_log log].
      rewrite length_app. cbn [length]. lia.
  - unfold replaced. cbn [snd]. split.
    + split; [intros Heq; destruct (Hgrows _ _ _ Heq)|].
      intros (z' & Hz' & _). discriminate Hz'.
    + intros _. unfold after_replacement. cbn [set_log log].
      rewrite length_app. cbn [length]. lia.
Qed.

End WithGenerators.

(** C3, as stated, fails: a [str] seed is a TypeError, from the comparison
    of line 78, and nothing is logged or seeded. *)
Lemma str_seed_raises :
  set_random_seed (PyStr "abc") false fresh_world = (Raised TypeError, fresh_world) /\
  raises (fst (set_random_seed (PyStr "abc") false fresh_world)) /\
  ~ returns (fst (set_random_seed (PyStr "abc") false fresh_world)).
Proof.
  split; [reflexivity|]. split; [exists TypeError; reflexivity|].
  intros [a Ha]. discriminate Ha.
Qed.

(** Seed 42 is kept; seed -5 is replaced by the draw, 7 in [fresh_world]. *)
Lemma seed_resolution_witness :
  resolve_seed (PyInt 42) fresh_world = (Returned 42, fresh_world) /\
  exists n g,
    randint 0 (2 ^ 32 - 1) (random_state fresh_world) = (n, g) /\
    0 <= n <= 2 ^ 32 - 1 /\
    resolve_seed (PyInt (-5)) fresh_world =
    (Returned n,
     set_log [(WARNING, "Got invalid seed: -5, use the generated seed: " +:+ pretty n)]
       (set_random_state g fresh_world)).
Proof.
  split.
  - apply (proj1 (seed_resolution fresh_world) 42). lia.
  - destruct (proj2 (seed_resolution fresh_world) (PyInt (-5)))
      as (n & g & Hdraw & Hn & Hres & _).
    + right. exists (-5). split; [reflexivity|lia].
    + exists n, g. split; [exact Hdraw|]. split; [exact Hn|]. exact Hres.
Defined.

Lemma set_random_seed_never_raises_witness :
  exists n w',
    set_random_seed PyNone true fresh_world = (Returned tt, w') /\
    0 <= n <= 2 ^ 32 - 1 /\
    log w' = [(WARNING, warning_text PyNone n)].
Proof.
  destruct (set_random_seed_never_raises_on_optional_int None true fresh_world)
    as [_ H].
  destruct H as (n & w' & Hcall & Hn & Hlog & _); [left; reflexivity|].
  exists n, w'. split; [exact Hcall|]. split; [exact Hn|exact Hlog].
Defined.

Lemma same_seed_witness :
  random_state (snd (set_random_seed (PyInt 42) true fresh_world)) =
  random_state (snd (set_random_seed (PyInt 42) false used_world)).
Proof.
  apply (same_seed_same_generators 42 true false fresh_world used_world).
  lia.
Defined.

Lemma environ_frame_witness :
  environ (snd (set_random_seed PyNone true
                  (set_environ {["HOME" := "/root"]} fresh_world))) !! "HOME" =
  Some "/root".
Proof.
  etrans.
  - apply (environ_frame PyNone true
             (set_environ {["HOME" := "/root"]} fresh_world) "HOME").
    discriminate.
  - reflexivity.
Defined.

Lemma set_random_seed_twice_witness :
  set_random_seed (PyInt 42) true
    (snd (set_random_seed (PyInt 42) true fresh_world)) =
  set_random_seed (PyInt 42) true fresh_world.
Proof. apply (set_random_seed_twice 42 true fresh_world). lia. Defined.

Lemma warning_iff_replaced_witness :
  length (log (snd (set_random_seed (PyInt (-1)) false fresh_world))) = 1%nat.
Proof.
  apply (proj2 (warning_iff_replaced (Some (-1)) false fresh_world)).
  intros z [= <-]. lia.
Defined.

Example seed_42 :
  set_random_seed (PyInt 42) true fresh_world =
  (Returned tt,
   mkWorld (42, 0) 42 42 {["PYTHONHASHSEED" := "42"]} false true []).
Proof. vm_compute. reflexivity. Qed.

Example seed_too_large :
  fst (resolve_seed (PyInt (2 ^ 32)) fresh_world) = Returned 7 /\
  log (snd (resolve_seed (PyInt (2 ^ 32)) fresh_world)) =
  [(WARNING, "Got invalid seed: 4294967296, use the generated seed: 7")].
Proof. split; vm_compute; reflexivity. Qed.

End SeedSetterProofs.

(** ** symlink *)

Module SymlinkProofs.
Import Symlink.

(** With nothing at [dst], [overwrite] plays no part: the link is created. *)
Lemma symlink_fresh (src dst : string) (overwrite : bool)
    (kwargs : SymlinkOptions) (fs : FileSystem) :
  fs !! dst = None ->
  symlink src dst overwrite kwargs fs = (Returned tt, <[dst := SymbolicLink src]> fs).
Proof.
  intros Hdst. unfold symlink, bind, os_path_lexists, gets, os_symlink, ret.
  rewrite Hdst. cbn. rewrite Hdst. reflexivity.
Qed.

(** [os.remove] refuses a directory, so [symlink] stops there: the
    directory stays and no link is made. *)
Lemma symlink_over_directory (src dst : string) (kwargs : SymlinkOptions)
    (fs : FileSystem) :
  fs !! dst = Some Directory ->
  symlink src dst true kwargs fs = (Raised IsADirectoryError, fs).
Proof.
  intros Hdst. unfold symlink, bind, os_path_lexists, gets, os_remove.
  rewrite Hdst. cbn. rewrite Hdst. reflexivity.
Qed.

(** With [overwrite] true and a regular file or a symbolic link at [dst]
    (broken or not: what a link points to is not looked at), the entry is
    removed, then the link to [src] is created at [dst]; every other path
    is as it was. *)
Theorem symlink_overwrite_replaces (src dst : string) (kwargs : SymlinkOptions)
    (fs : FileSystem) (old : Entry) :
  fs !! dst = Some old ->
  old <> Directory ->
  os_remove dst fs = (Returned tt, delete dst fs) /\
  os_symlink src dst kwargs (delete dst fs) =
    (Returned tt, <[dst := SymbolicLink src]> (delete dst fs)) /\
  symlink src dst true kwargs fs =
    (Returned tt, <[dst := SymbolicLink src]> (delete dst fs)) /\
  (<[dst := SymbolicLink src]> (delete dst fs) : FileSystem) !! dst =
    Some (SymbolicLink src) /\
  forall path, path <> dst ->
    (<[dst := SymbolicLink src]> (delete dst fs) : FileSystem) !! path = fs !! path.
Proof.
  intros Hdst Hold.
  assert (os_remove dst fs = (Returned tt, delete dst fs)) as Hremove.
  { unfold os_remove. rewrite Hdst. destruct old; [reflexivity|congruence|reflexivity]. }
  assert (os_symlink src dst kwargs (delete dst fs) =
          (Returned tt, <[dst := SymbolicLink src]> (delete dst fs))) as Hlink.
  { unfold os_symlink. rewrite lookup_delete_eq. reflexivity. }
  split; [exact Hremove|]. split; [exact Hlink|]. split; [|split].
  - unfold symlink, bind, os_path_lexists, gets. rewrite Hdst. cbn.
    rewrite Hremove. exact Hlink.
  - apply lookup_insert_eq.
  - intros path Hpath.
    rewrite lookup_insert_ne by congruence.
    apply lookup_delete_ne. congruence.
Qed.

(** C6. With [overwrite] false and anything at [dst], the call raises the
    FileExistsError of [os.symlink], and the file system is unchanged:
    [os.remove] is not called. *)
Theorem symlink_no_overwrite_exists (src dst : string) (kwargs : SymlinkOptions)
    (fs : FileSystem) (old : Entry) :
  fs !! dst = Some old ->
  os_symlink src dst kwargs fs = (Raised FileExistsError, fs) /\
  symlink src dst false kwargs fs = (Raised FileExistsError, fs) /\
  snd (symlink src dst false kwargs fs) !! dst = Some old.
Proof.
  intros Hdst.
  assert (os_symlink src dst kwargs fs = (Raised FileExistsError, fs)) as Hlink.
  { unfold os_symlink. rewrite Hdst. reflexivity. }
  assert (symlink src dst false kwargs fs = (Raised FileExistsError, fs)) as Hcall.
  { unfold symlink, bind, os_path_lexists, gets. rewrite Hdst. cbn. exact Hlink. }
  split; [exact Hlink|]. split; [exact Hcall|].
  rewrite Hcall. exact Hdst.
Qed.

(** With nothing at the destination, [overwrite] plays no part: for both
    values nothing is removed, and the call is the call of [os.symlink],
    with its outcome, the link or that call's error. *)
Theorem symlink_fresh_either_way (src dst : string) (kwargs : SymlinkOptions)
    (fs : FileSystem) :
  fs !! dst = None ->
  symlink src dst true kwargs fs = os_symlink src dst kwargs fs /\
  symlink src dst false kwargs fs = os_symlink src dst kwargs fs.
Proof.
  intros Hdst. unfold symlink, bind, os_path_lexists, gets, ret.
  rewrite Hdst. cbn [andb]. split; reflexivity.
Qed.

Lemma symlink_fresh_witness :
  symlink "data/file" "data/new" true no_options sample_fs =
    os_symlink "data/file" "data/new" no_options sample_fs /\
  symlink "data/file" "data/new" false no_options sample_fs =
    os_symlink "data/file" "data/new" no_options sample_fs.
Proof.
  apply (symlink_fresh_either_way "data/file" "data/new" no_options sample_fs).
  reflexivity.
Defined.

(** C2. The docstring has [overwrite] remove the existing target, and the
    code calls [os.remove] on whatever [lexists] finds; on a directory that
    call raises, so the directory [data/dir] stays and no link is made. *)
Lemma symlink_directory_not_replaced :
  sample_fs !! "data/dir" = Some Directory /\
  symlink "data/file" "data/dir" true no_options sample_fs =
    (Raised IsADirectoryError, sample_fs).
Proof.
  split; [reflexivity|]. apply symlink_over_directory. reflexivity.
Qed.

(** A broken link at [dst] is replaced. *)
Lemma symlink_overwrite_witness :
  sample_fs !! "data/gone" = None /\
  symlink "data/file" "data/broken" true no_options sample_fs =
    (Returned tt, <["data/broken" := SymbolicLink "data/file"]> (delete "data/broken" sample_fs)).
Proof.
  split; [reflexivity|].
  apply (symlink_overwrite_replaces "data/file" "data/broken" no_options
           sample_fs (SymbolicLink "data/gone")).
  - reflexivity.
  - discriminate.
Defined.

Lemma symlink_no_overwrite_witness :
  symlink "data/file" "data/link" false no_options sample_fs =
    (Raised FileExistsError, sample_fs).
Proof.
  apply (symlink_no_overwrite_exists "data/file" "data/link" no_options
           sample_fs (SymbolicLink "data/file")).
  reflexivity.
Defined.

(** *** Further properties of the call *)








End SymlinkProofs.

(** ** tabulate: strings, centring, digits *)

Module TabulateProofs.
Import Tabulate.

Lemma string_app_assoc (a b c : string) : (a +:+ b) +:+ c = a +:+ (b +:+ c).
Proof.
  induction a as [|x a IH]; [reflexivity|].
  change (String x ((a +:+ b) +:+ c) = String x (a +:+ (b +:+ c))).
  f_equal. exact IH.
Qed.

Lemma string_length_app (a b : string) :
  String.length (a +:+ b) = (String.length a + String.length b)%nat.
Proof.
  induction a as [|x a IH]; [reflexivity|].
  change (S (String.length (a +:+ b)) = S (String.length a + String.length b)).
  f_equal. exact IH.
Qed.

Lemma length_spaces (n : nat) : String.length (spaces n) = n.
Proof. induction n as [|n IH]; [reflexivity|]. cbn. f_equal. exact IH. Qed.

Lemma half_bounds (n : nat) : (n / 2 <= n - n / 2 <= n / 2 + 1)%nat.
Proof.
  pose proof (Nat.div_mod_eq n 2) as Hdiv.
  pose proof (Nat.mod_upper_bound n 2). lia.
Qed.


Lemma length_padboth (width : nat) (text : string) :
  (String.length text <= width)%nat -> String.length (padboth width text) = width.
Proof.
  intros Hfit. unfold padboth.
  rewrite !string_length_app, !length_spaces.
  pose proof (half_bounds (width - String.length text)). lia.
Qed.


(** The pipeline of [tabulate], column by column. *)
Lemma tabulate_cells (a : Align) (d : list (string * Number)) :
  zip_with (align_column a) (map format_value (map snd d))
    (map (fun h => (String.length h + MIN_PADDING)%nat) (map fst d)) =
  map (fun item => col_cell (column a item)) d.
Proof.
  induction d as [|[key value] d IH]; [reflexivity|].
  cbn [map zip_with fst snd]. f_equal. exact IH.
Qed.

Lemma tabulate_widths (a : Align) (d : list (string * Number)) :
  zip_with (fun minw c => Nat.max minw (String.length c))
    (map (fun h => (String.length h + MIN_PADDING)%nat) (map fst d))
    (map (fun item => col_cell (column a item)) d) =
  map (fun item => col_width (column a item)) d.
Proof.
  induction d as [|[key value] d IH]; [reflexivity|].
  cbn [map zip_with fst snd]. f_equal. exact IH.
Qed.

Lemma tabulate_headers (a : Align) (d : list (string * Number)) :
  zip_with (align_header a) (map fst d)
    (map (fun item => col_width (column a item)) d) =
  map (fun item => col_header (column a item)) d.
Proof.
  induction d as [|[key value] d IH]; [reflexivity|].
  cbn [map zip_with fst snd]. f_equal. exact IH.
Qed.

Lemma tabulate_columns (stralign a : Align) (d : list (string * Number)) :
  tabulate (map snd d) (map fst d) stralign a =
  format_table (map (fun item => col_header (column a item)) d)
    (map (fun item => col_cell (column a item)) d)
    (map (fun item => col_width (column a item)) d) a.
Proof.
  unfold tabulate.
  rewrite tabulate_cells, tabulate_widths, tabulate_headers. reflexivity.
Qed.

(** A joined row, closed by a bar, cell by cell. *)
Lemma concat_bar_cons (x : string) (l : list string) :
  String.concat "|" (x :: l) +:+ "|" =
  x +:+ "|" +:+ match l with [] => "" | _ :: _ => String.concat "|" l +:+ "|" end.
Proof.
  destruct l as [|y l]; cbn [String.concat].
  - reflexivity.
  - rewrite !string_app_assoc. reflexivity.
Qed.

(** The rows the pipe format builds are the rows of [pipe_row]. *)
Lemma build_row_cells (cells : list string) :
  cells <> [] ->
  String.concat "|" (pad_row cells) +:+ "|" = pipe_cells cells.
Proof.
  induction cells as [|cell rest IH]; [congruence|]. intros _.
  change (pad_row (cell :: rest)) with ((" " +:+ cell +:+ " ") :: pad_row rest).
  rewrite concat_bar_cons. cbn [pipe_cells].
  destruct rest as [|cell' rest].
  - cbn [pad_row map pipe_cells]. rewrite !string_app_assoc. reflexivity.
  - change (pad_row (cell' :: rest))
      with ((" " +:+ cell' +:+ " ") :: pad_row rest) at 1.
    cbv iota.
    change ((" " +:+ cell' +:+ " ") :: pad_row rest) with (pad_row (cell' :: rest)).
    rewrite IH by congruence. rewrite !string_app_assoc. reflexivity.
Qed.

Lemma build_row_pipe_row (cells : list string) :
  cells <> [] -> build_row (pad_row cells) = pipe_row cells.
Proof.
  intros Hcells. unfold build_row, pipe_row.
  rewrite build_row_cells by exact Hcells. reflexivity.
Qed.

Lemma pipe_line_segments (widths : list nat) :
  widths <> [] ->
  String.concat "|"
    (map (pipe_segment_with_colons AlignCenter)
       (map (fun w => (w + 2)%nat) widths)) +:+ "|" =
  pipe_rule_segments widths.
Proof.
  induction widths as [|w rest IH]; [congruence|]. intros _.
  cbn [map]. rewrite concat_bar_cons. cbn [pipe_rule_segments].
  unfold pipe_segment_with_colons at 1. rewrite Nat.add_sub.
  destruct rest as [|w' rest].
  - cbn [map pipe_rule_segments]. rewrite !string_app_assoc. reflexivity.
  - cbn [map]. cbn [map] in IH. rewrite IH by congruence.
    rewrite !string_app_assoc. reflexivity.
Qed.

Lemma pipe_line_rule (widths : list nat) :
  widths <> [] ->
  pipe_line_with_colons (map (fun w => (w + 2)%nat) widths) AlignCenter =
  pipe_rule widths.
Proof.
  intros Hwidths. unfold pipe_line_with_colons, pipe_rule.
  rewrite pipe_line_segments by exact Hwidths. reflexivity.
Qed.

(** The table of a non-empty list of items: header row, rule, data row. *)
Lemma tabulate_layout (stralign : Align) (d : list (string * Number)) :
  d <> [] ->
  tabulate (map snd d) (map fst d) stralign AlignCenter =
  pipe_row (map (fun item => col_header (column AlignCenter item)) d) +:+ newline +:+
  pipe_rule (map (fun item => col_width (column AlignCenter item)) d) +:+ newline +:+
  pipe_row (map (fun item => col_cell (column AlignCenter item)) d).
Proof.
  intros Hd. rewrite tabulate_columns. unfold format_table.
  assert (forall {A} (f : string * Number -> A), map f d <> []) as Hmap.
  { intros A f. destruct d; [congruence|discriminate]. }
  rewrite !build_row_pipe_row, pipe_line_rule by apply Hmap.
  reflexivity.
Qed.

(** *** Numerals *)

Lemma is_digit_pretty_N_char (k : N) : is_digit (pretty_N_char k) = true.
Proof.
  destruct k as [|p]; [reflexivity|].
  do 4 (destruct p as [p|p|]; try reflexivity).
Qed.

Lemma all_digits_pretty_N_go (x : N) (s : string) :
  all_digits s = true -> all_digits (pretty_N_go x s) = true.
Proof.
  revert s. induction (N.lt_wf_0 x) as [x _ IH]. intros s Hs.
  destruct (decide (x = 0%N)) as [->|Hx]; [rewrite pretty_N_go_0; exact Hs|].
  rewrite pretty_N_go_step by lia.
  apply IH; [apply N.div_lt; lia|].
  cbn [all_digits]. rewrite is_digit_pretty_N_char, Hs. reflexivity.
Qed.

Lemma pretty_N_go_nonempty (x : N) (s : string) :
  s <> "" -> pretty_N_go x s <> "".
Proof.
  revert s. induction (N.lt_wf_0 x) as [x _ IH]. intros s Hs.
  destruct (decide (x = 0%N)) as [->|Hx]; [rewrite pretty_N_go_0; exact Hs|].
  rewrite pretty_N_go_step by lia.
  apply IH; [apply N.div_lt; lia|discriminate].
Qed.

(** [pretty] on a natural number is a non-empty string of digits. *)
Lemma pretty_N_digits (n : N) : all_digits (pretty n) = true /\ pretty n <> "".
Proof.
  unfold pretty, pretty_N. destruct (decide (n = 0%N)) as [->|Hn].
  - split; [reflexivity|discriminate].
  - split; [apply all_digits_pretty_N_go; reflexivity|].
    rewrite pretty_N_go_step by lia. apply pretty_N_go_nonempty. discriminate.
Qed.

Lemma is_digit_digit (k : N) : (k < 10)%N -> is_digit (digit k) = true.
Proof.
  intros Hk. destruct k as [|p]; [reflexivity|].
  do 4 (destruct p as [p|p|]; try reflexivity; try lia).
Qed.

Lemma three_digits_digits (n : N) :
  (n < 1000)%N ->
  all_digits (three_digits n) = true /\ String.length (three_digits n) = 3%nat.
Proof.
  intros Hn. split; [|reflexivity].
  unfold three_digits. cbn [all_digits].
  rewrite !is_digit_digit; [reflexivity| | |].
  - apply N.mod_lt. lia.
  - apply N.mod_lt. lia.
  - apply N.Div0.div_lt_upper_bound. lia.
Qed.



(** [round_half_even n d] is within half a unit of [n / d]. *)
Lemma round_half_even_nearest (n d : N) :
  (0 < d)%N ->
  (2 * (round_half_even n d * d) <= 2 * n + d /\
   2 * n <= 2 * (round_half_even n d * d) + d)%N.
Proof.
  intros Hd. unfold round_half_even.
  pose proof (N.div_mod n d ltac:(lia)) as Hdiv.
  pose proof (N.mod_lt n d ltac:(lia)) as Hmod.
  set (q := (n / d)%N) in *. set (r := (n mod d)%N) in *.
  destruct (N.compare_spec (2 * r) d) as [Heq|Hlt|Hgt];
    [destruct (N.even q)| |]; nia.
Qed.

(** The value rendered is the float, to within half a thousandth: for
    [m * 2^-p], [|q * 2^p - 1000 * m| <= 2^p / 2]. *)
Lemma thousandths_nearest (m : N) (p : positive) :
  (2 * (thousandths m (Z.neg p) * 2 ^ N.pos p) <= 2 * (m * 1000) + 2 ^ N.pos p /\
   2 * (m * 1000) <= 2 * (thousandths m (Z.neg p) * 2 ^ N.pos p) + 2 ^ N.pos p)%N.
Proof.
  unfold thousandths. apply round_half_even_nearest.
  assert (2 ^ N.pos p <> 0)%N by (apply N.pow_nonzero; discriminate). lia.
Qed.

(** *** Stripping *)

Lemma rstrip_cons_nonspace (c : ascii) (t : string) :
  Ascii.eqb c " " = false -> rstrip (String c t) = String c (rstrip t).
Proof. intros Hc. cbn [rstrip]. rewrite Hc. destruct (rstrip t); reflexivity. Qed.

Lemma rstrip_cons_nonempty (c : ascii) (t : string) :
  rstrip t <> "" -> rstrip (String c t) = String c (rstrip t).
Proof. intros Ht. cbn [rstrip]. destruct (rstrip t); [congruence|reflexivity]. Qed.

Lemma rstrip_fixed_cons (c : ascii) (a : string) :
  rstrip (String c a) = String c a -> a <> "" -> rstrip a = a.
Proof.
  intros Hfix Ha. cbn [rstrip] in Hfix. destruct (rstrip a) as [|x t].
  - destruct (Ascii.eqb c " "); [discriminate Hfix|]. congruence.
  - congruence.
Qed.

Lemma string_app_nonempty_r (a t : string) : t <> "" -> a +:+ t <> "".
Proof. intros Ht. destruct a; [exact Ht|discriminate]. Qed.

(** Text after a right-stripped text does not reach into it. *)
Lemma rstrip_app_l (a b : string) :
  rstrip a = a -> a <> "" -> rstrip (a +:+ b) = a +:+ rstrip b.
Proof.
  induction a as [|c a IH]; [congruence|]. intros Hfix _.
  change (rstrip (String c (a +:+ b)) = String c (a +:+ rstrip b)).
  destruct a as [|c' a'].
  - change (rstrip (String c b) = String c (rstrip b)).
    apply rstrip_cons_nonspace.
    cbn [rstrip] in Hfix. destruct (Ascii.eqb c " "); [discriminate Hfix|reflexivity].
  - assert (rstrip (String c' a') = String c' a') as Hfix'
      by (apply (rstrip_fixed_cons c); [exact Hfix|discriminate]).
    rewrite rstrip_cons_nonempty; rewrite IH by (exact Hfix' || discriminate);
      [reflexivity|discriminate].
Qed.

(** A right-stripped, non-empty text at the end stays whole. *)
Lemma rstrip_app_r (a t : string) :
  rstrip t = t -> t <> "" -> rstrip (a +:+ t) = a +:+ t.
Proof.
  intros Hfix Ht. induction a as [|c a IH]; [exact Hfix|].
  change (rstrip (String c (a +:+ t)) = String c (a +:+ t)).
  rewrite rstrip_cons_nonempty; rewrite IH; [reflexivity|].
  apply string_app_nonempty_r, Ht.
Qed.

Lemma rstrip_digits (s : string) : all_digits s = true -> rstrip s = s.
Proof.
  induction s as [|c s IH]; [reflexivity|]. cbn [all_digits].
  intros [Hc Hs]%andb_true_iff. rewrite rstrip_cons_nonspace, (IH Hs); [reflexivity|].
  destruct (Ascii.eqb_spec c " ") as [->|_]; [discriminate Hc|reflexivity].
Qed.

(** A row starts with its label, and what follows the label is nothing or
    starts with a blank. *)
Lemma entry_line_starts (w1 w2 : nat) (label value : string) :
  rstrip label = label -> lstrip label = label -> label <> "" ->
  exists rest,
    entry_line w1 w2 label value = label +:+ rest /\
    (rest = "" \/ exists rest', rest = String " " rest').
Proof.
  intros Hr Hl Hne. unfold entry_line, strip. rewrite Hr, Hl.
  unfold padright at 1. rewrite !string_app_assoc.
  rewrite rstrip_app_l by assumption.
  exists (rstrip (spaces (w1 - String.length label) +:+ "  " +:+
                  padright w2 (lstrip (rstrip value)))).
  split; [reflexivity|].
  destruct (w1 - String.length label)%nat as [|k].
  - change (rstrip (String " " (String " " (padright w2 (lstrip (rstrip value))))) = "" \/
            exists rest', rstrip (String " " (String " " (padright w2 (lstrip (rstrip value))))) =
                          String " " rest').
    cbn [rstrip]. destruct (rstrip (padright w2 (lstrip (rstrip value))));
      cbn; eauto.
  - change (spaces (S k) +:+ "  " +:+ padright w2 (lstrip (rstrip value)))
      with (String " " (spaces k +:+ "  " +:+ padright w2 (lstrip (rstrip value)))).
    cbn [rstrip].
    destruct (rstrip (spaces k +:+ "  " +:+ padright w2 (lstrip (rstrip value))));
      cbn; eauto.
Qed.

(** Joining, one separator at a time. *)
Lemma concat_cons (sep x y : string) (l : list string) :
  String.concat sep (x :: y :: l) = x +:+ sep +:+ String.concat sep (y :: l).
Proof. reflexivity. Qed.

Lemma concat_snoc (sep y : string) (l : list string) :
  l <> [] -> String.concat sep (l ++ [y]) = String.concat sep l +:+ sep +:+ y.
Proof.
  induction l as [|x l IH]; [congruence|]. intros _.
  destruct l as [|x' l].
  - reflexivity.
  - change ((x :: x' :: l) ++ [y]) with (x :: x' :: (l ++ [y])).
    rewrite !concat_cons.
    change (x' :: l ++ [y]) with ((x' :: l) ++ [y]).
    rewrite IH by discriminate. rewrite !string_app_assoc. reflexivity.
Qed.

Lemma zip_with_map_same {A B C D : Type} (f : B -> C -> D) (g : A -> B)
    (h : A -> C) (l : list A) :
  zip_with f (map g l) (map h l) = map (fun x => f (g x) (h x)) l.
Proof. induction l as [|x l IH]; [reflexivity|]. cbn. f_equal. exact IH. Qed.

(** The table of the default format: the line of dashes, one line per row,
    the line of dashes. *)
Lemma tabulate_simple_lines (rows : list (string * string)) :
  rows <> [] ->
  exists w1 w2 : nat,
    tabulate_simple rows =
    simple_line [w1; w2] +:+ newline +:+
    String.concat newline
      (map (fun row => entry_line w1 w2 (fst row) (snd row)) rows) +:+ newline +:+
    simple_line [w1; w2].
Proof.
  intros Hrows. unfold tabulate_simple.
  set (w1 := max_width (map (fun row => strip (fst row)) rows)).
  set (w2 := max_width (map (fun row => strip (snd row)) rows)).
  exists w1, w2.
  rewrite !map_map, zip_with_map_same.
  change (fun x : string * string =>
            build_simple_row [padright w1 (strip (fst x)); padright w2 (strip (snd x))])
    with (fun row : string * string => entry_line w1 w2 (fst row) (snd row)).
  set (lines := map (fun row => entry_line w1 w2 (fst row) (snd row)) rows).
  assert (lines <> []) as Hlines by (subst lines; destruct rows; [congruence|discriminate]).
  change ([simple_line [w1; w2]] ++ lines ++ [simple_line [w1; w2]])
    with (simple_line [w1; w2] :: (lines ++ [simple_line [w1; w2]])).
  destruct lines as [|line lines'] eqn:Heq; [congruence|].
  change ((line :: lines') ++ [simple_line [w1; w2]])
    with (line :: (lines' ++ [simple_line [w1; w2]])).
  rewrite concat_cons.
  change (line :: lines' ++ [simple_line [w1; w2]])
    with ((line :: lines') ++ [simple_line [w1; w2]]).
  rewrite concat_snoc by discriminate. reflexivity.
Qed.

End TabulateProofs.

(** ** create_small_table *)

Module SmallTableProofs.
Import Tabulate SmallTable TabulateProofs.

Lemma unzip_nonempty (d : Dict) :
  d <> [] -> unpack2 (zip_star d) = Returned (map fst d, map snd d).
Proof. destruct d as [|item d]; [congruence|reflexivity]. Qed.

Lemma create_small_table_nonempty (d : Dict) :
  d <> [] ->
  create_small_table d =
  (Returned (tabulate (map snd d) (map fst d) AlignCenter AlignCenter), d).
Proof.
  intros Hd. unfold create_small_table, bind, dict_items, gets, lift, ret.
  rewrite unzip_nonempty by exact Hd. reflexivity.
Qed.


(** C7. The empty mapping makes the call fail, with the ValueError of
    unpacking no tuple into two names; a mapping with an entry unzips into
    its keys and its values, and the call returns. *)
Theorem unzip_needs_an_entry :
  unpack2 (zip_star ([] : Dict)) = Raised ValueError /\
  create_small_table [] = (Raised ValueError, []) /\
  forall d : Dict,
    d <> [] ->
    unpack2 (zip_star d) = Returned (map fst d, map snd d) /\
    returns (fst (create_small_table d)).
Proof.
  split; [reflexivity|]. split; [reflexivity|].
  intros d Hd. split; [apply unzip_nonempty, Hd|].
  rewrite create_small_table_nonempty by exact Hd. eexists. reflexivity.
Qed.


(** C10. The call leaves the dictionary it was given as it was, whether it
    returns or raises. *)
Theorem create_small_table_frame (d : Dict) :
  snd (create_small_table d) = d /\
  (d <> [] ->
   exists table, create_small_table d = (Returned table, d)).
Proof.
  split.
  - destruct d as [|item d]; reflexivity.
  - intros Hd. rewrite create_small_table_nonempty by exact Hd.
    eexists. reflexivity.
Qed.


Lemma unzip_witness :
  unpack2 (zip_star ap_dict) =
    Returned (["AP"; "AP50"], [Float half; Float four_fifths]) /\
  returns (fst (create_small_table ap_dict)).
Proof.
  apply (proj2 (proj2 unzip_needs_an_entry) ap_dict). discriminate.
Defined.


Lemma create_small_table_frame_witness :
  exists table, create_small_table ap_dict = (Returned table, ap_dict).
Proof.
  apply (proj2 (create_small_table_frame ap_dict)). discriminate.
Defined.

(** The table of the specification's example. *)
Example ap_table :
  fst (create_small_table ap_dict) =
  Returned
    ("|  AP   |  AP50  |" +:+ newline +:+
     "|:-----:|:------:|" +:+ newline +:+
     "| 0.500 | 0.800  |").
Proof. vm_compute. reflexivity. Qed.

Example rounding_ties_to_even :
  format_3f (Finite false 1 (-4)) = "0.062" /\
  format_3f (Finite false 3 (-4)) = "0.188" /\
  format_3f (Finite true 1 (-20)) = "-0.000" /\
  format_3f (Finite false 5 1) = "10.000".
Proof. repeat split; vm_compute; reflexivity. Qed.

(** *** The shape of the table *)

Lemma single_line_app (a b : string) :
  single_line (a +:+ b) = single_line a && single_line b.
Proof.
  induction a as [|c a IH]; [reflexivity|].
  change (single_line (String c (a +:+ b)) = single_line (String c a) && single_line b).
  cbn [single_line]. rewrite IH, andb_assoc. reflexivity.
Qed.

Lemma single_line_spaces (n : nat) : single_line (spaces n) = true.
Proof. induction n as [|n IH]; [reflexivity|]. cbn. exact IH. Qed.

Lemma single_line_dashes (n : nat) : single_line (dashes n) = true.
Proof. induction n as [|n IH]; [reflexivity|]. cbn. exact IH. Qed.

Lemma length_dashes (n : nat) : String.length (dashes n) = n.
Proof. induction n as [|n IH]; [reflexivity|]. cbn. f_equal. exact IH. Qed.

Lemma single_line_digits (s : string) : all_digits s = true -> single_line s = true.
Proof.
  induction s as [|c s IH]; [reflexivity|]. cbn [all_digits single_line].
  intros [Hc Hs]%andb_true_iff. rewrite (IH Hs), andb_true_r.
  destruct (Ascii.eqb_spec c (ascii_of_nat 10)) as [->|_]; [discriminate Hc|reflexivity].
Qed.

Lemma single_line_plain (s : string) : plain s = true -> single_line s = true.
Proof.
  induction s as [|c s IH]; [reflexivity|]. cbn [plain single_line].
  intros [Hc Hs]%andb_true_iff. rewrite (IH Hs), andb_true_r.
  destruct (Ascii.eqb_spec c (ascii_of_nat 10)) as [->|_]; [discriminate Hc|reflexivity].
Qed.

(** The text of a number has no line feed. *)
Lemma single_line_format_value (v : Number) : single_line (format_value v) = true.
Proof.
  destruct v as [[|p|p]|[negative m e|[|]|]]; try reflexivity.
  - apply single_line_digits, (pretty_N_digits (N.pos p)).
  - change (format_value (Int (Z.neg p))) with ("-" +:+ pretty (N.pos p)).
    rewrite single_line_app. cbn [single_line Ascii.eqb negb andb].
    apply single_line_digits, (pretty_N_digits (N.pos p)).
  - unfold format_value, format_3f. rewrite !single_line_app.
    destruct (pretty_N_digits (thousandths m e / 1000)) as [Hint _].
    destruct (three_digits_digits (thousandths m e mod 1000)) as [Hfrac _];
      [apply N.mod_lt; lia|].
    rewrite (single_line_digits _ Hint), (single_line_digits _ Hfrac).
    destruct negative; reflexivity.
Qed.

Lemma single_line_padboth (width : nat) (s : string) :
  single_line s = true -> single_line (padboth width s) = true.
Proof.
  intros Hs. unfold padboth.
  rewrite !single_line_app, !single_line_spaces, Hs. reflexivity.
Qed.

Lemma single_line_pipe_cells (cells : list string) :
  Forall (fun cell => single_line cell = true) cells ->
  single_line (pipe_cells cells) = true.
Proof.
  induction 1 as [|cell rest Hcell _ IH]; [reflexivity|].
  cbn [pipe_cells]. rewrite !single_line_app, Hcell, IH. reflexivity.
Qed.

Lemma single_line_pipe_rule (widths : list nat) :
  single_line (pipe_rule_segments widths) = true.
Proof.
  induction widths as [|w rest IH]; [reflexivity|].
  cbn [pipe_rule_segments]. rewrite !single_line_app, single_line_dashes, IH.
  reflexivity.
Qed.

(** The columns of [d], measured: the header and the data cell of a column
    have the width of the column. *)
Lemma column_lengths (key : string) (value : Number) :
  String.length (col_header (column AlignCenter (key, value))) =
    Nat.max (String.length key + 2) (String.length (format_value value)) /\
  String.length (col_cell (column AlignCenter (key, value))) =
    Nat.max (String.length key + 2) (String.length (format_value value)) /\
  col_width (column AlignCenter (key, value)) =
    Nat.max (String.length key + 2) (String.length (format_value value)).
Proof.
  unfold column, align_column, align_header, padfn, MIN_PADDING.
  cbn [col_width col_header col_cell].
  rewrite !length_padboth; rewrite ?length_padboth; lia.
Qed.

Lemma length_pipe_cells_columns (f : Column -> string) (d : Dict) :
  (forall key value,
     String.length (f (column AlignCenter (key, value))) =
     Nat.max (String.length key + 2) (String.length (format_value value))) ->
  S (String.length (pipe_cells (map (fun item => f (column AlignCenter item)) d))) =
  table_width d.
Proof.
  intros Hf. induction d as [|[key value] d IH]; [reflexivity|].
  cbn [map pipe_cells table_width].
  rewrite !string_length_app, Hf. cbn [String.length]. lia.
Qed.

Lemma length_pipe_rule_columns (d : Dict) :
  S (String.length
       (pipe_rule_segments (map (fun item => col_width (column AlignCenter item)) d))) =
  table_width d.
Proof.
  induction d as [|[key value] d IH]; [reflexivity|].
  cbn [map pipe_rule_segments table_width].
  rewrite !string_length_app, length_dashes.
  destruct (column_lengths key value) as (_ & _ & ->).
  cbn [String.length]. lia.
Qed.

(** The table is three lines of one length: a header row, a rule and a
    data row, none holding a line feed, each as long as the bars, blanks
    and column widths of [d] add up to. *)
Theorem table_is_rectangular (d : Dict) :
  d <> [] ->
  Forall (fun item => plain (fst item) = true) d ->
  exists header rule row : string,
    fst (create_small_table d) =
      Returned (header +:+ newline +:+ rule +:+ newline +:+ row) /\
    single_line header = true /\ single_line rule = true /\
    single_line row = true /\
    String.length header = table_width d /\
    String.length rule = table_width d /\
    String.length row = table_width d.
Proof.
  intros Hd Hplain.
  exists (pipe_row (map (fun item => col_header (column AlignCenter item)) d)),
    (pipe_rule (map (fun item => col_width (column AlignCenter item)) d)),
    (pipe_row (map (fun item => col_cell (column AlignCenter item)) d)).
  split.
  { rewrite create_small_table_nonempty by exact Hd. cbn [fst].
    rewrite tabulate_layout by exact Hd. reflexivity. }
  split.
  { unfold pipe_row. change (single_line (String "|" ?s)) with (single_line s).
    apply single_line_pipe_cells, Forall_map.
    eapply Forall_impl; [exact Hplain|]. intros [key value] Hkey.
    apply single_line_padboth, single_line_plain, Hkey. }
  split.
  { unfold pipe_rule. apply single_line_pipe_rule. }
  split.
  { unfold pipe_row. change (single_line (String "|" ?s)) with (single_line s).
    apply single_line_pipe_cells, Forall_map, Forall_forall.
    intros [key value] _.
    apply single_line_padboth, single_line_format_value. }
  split; [|split].
  - apply (length_pipe_cells_columns col_header).
    intros key value. apply column_lengths.
  - apply length_pipe_rule_columns.
  - apply (length_pipe_cells_columns col_cell).
    intros key value. apply column_lengths.
Qed.

Lemma table_is_rectangular_witness :
  exists header rule row : string,
    fst (create_small_table ap_dict) =
      Returned (header +:+ newline +:+ rule +:+ newline +:+ row) /\
    single_line header = true /\ single_line rule = true /\
    single_line row = true /\
    String.length header = 18%nat /\
    String.length rule = 18%nat /\
    String.length row = 18%nat.
Proof.
  apply (table_is_rectangular ap_dict).
  - discriminate.
  - repeat constructor.
Defined.

End SmallTableProofs.

(** ** collect_env *)

Module CollectEnvProofs.
Import CollectEnv.

Lemma elem_of_distinct (n : string) (names : list string) :
  n ∈ distinct names <-> n ∈ names.
Proof.
  induction names as [|a names IH]; [reflexivity|].
  cbn [distinct]. rewrite !elem_of_cons, list_elem_of_filter, IH.
  destruct (decide (n = a)); tauto.
Qed.

Lemma NoDup_distinct (names : list string) : NoDup (distinct names).
Proof.
  induction names as [|a names IH]; [constructor|].
  cbn [distinct]. constructor; [|apply NoDup_filter, IH].
  rewrite list_elem_of_filter. intros [Hne _]. apply Hne. reflexivity.
Qed.

(** A name seen before adds nothing; a new name goes to the end. *)
Lemma distinct_snoc (names : list string) (n : string) :
  distinct (names ++ [n]) =
  if decide (n ∈ names) then distinct names else distinct names ++ [n].
Proof.
  induction names as [|a names IH].
  - cbn. rewrite decide_False by apply not_elem_of_nil. reflexivity.
  - cbn [app distinct]. rewrite IH.
    destruct (decide (n = a)) as [->|Hna].
    + rewrite (decide_True (P := a ∈ a :: names)) by apply list_elem_of_here.
      destruct (decide (a ∈ names)); [reflexivity|].
      rewrite filter_app, filter_cons_False, filter_nil, app_nil_r
        by (intros Hne; apply Hne; reflexivity).
      reflexivity.
    + destruct (decide (n ∈ names)) as [Hin|Hnotin].
      * rewrite decide_True by (apply list_elem_of_further, Hin). reflexivity.
      * rewrite decide_False by (rewrite elem_of_cons; tauto).
        rewrite filter_app, filter_cons_True, filter_nil by exact Hna.
        reflexivity.
Qed.

(** [append_to] on a dictionary whose keys are distinct. *)
Lemma append_to_map (f : string -> list string) (n v : string) (keys : list string) :
  NoDup keys ->
  append_to n v (map (fun m => (m, f m)) keys) =
  if decide (n ∈ keys)
  then map (fun m => (m, if decide (m = n) then f m ++ [v] else f m)) keys
  else map (fun m => (m, f m)) keys ++ [(n, [v])].
Proof.
  induction keys as [|a keys IH]; intros Hnodup.
  - cbn. rewrite decide_False by apply not_elem_of_nil. reflexivity.
  - apply NoDup_cons in Hnodup as [Ha Hnodup].
    cbn [map append_to]. destruct (String.eqb_spec a n) as [->|Han].
    + rewrite decide_True by apply list_elem_of_here.
      cbn [map]. rewrite decide_True by reflexivity. f_equal.
      apply map_ext_in. intros m Hm%list_elem_of_In.
      rewrite decide_False by (intros ->; contradiction). reflexivity.
    + rewrite IH by exact Hnodup.
      destruct (decide (n ∈ keys)) as [Hin|Hnotin].
      * rewrite decide_True by (apply list_elem_of_further, Hin).
        cbn [map]. rewrite decide_False by exact Han. reflexivity.
      * rewrite decide_False by (rewrite elem_of_cons; intros [Heq|Hin]; auto).
        reflexivity.
Qed.

Section Grouping.
Variable get_name : nat -> string.

Lemma named_snoc (name : string) (ks : list nat) (k : nat) :
  named get_name name (ks ++ [k]) =
  named get_name name ks ++ (if decide (get_name k = name) then [k] else []).
Proof.
  unfold named. rewrite filter_app. reflexivity.
Qed.

Lemma named_nil (name : string) (ks : list nat) :
  name ∉ map get_name ks -> named get_name name ks = [].
Proof.
  intros Hname. unfold named. induction ks as [|k ks IH]; [reflexivity|].
  cbn [map] in Hname. rewrite not_elem_of_cons in Hname. destruct Hname as [Hk Hks].
  rewrite filter_cons_False by congruence. apply IH, Hks.
Qed.

(** The loop of lines 45-46 over any list of indices: one key per name,
    in the order of first appearance, holding the indices of that name. *)
Lemma grouping_loop (ks : list nat) :
  fold_left (fun devices k => append_to (get_name k) (pretty k) devices) ks [] =
  map (fun name => (name, map pretty (named get_name name ks)))
    (distinct (map get_name ks)).
Proof.
  induction ks as [|k ks IH] using rev_ind; [reflexivity|].
  rewrite fold_left_app. cbn [fold_left]. rewrite IH.
  rewrite (append_to_map (fun name => map pretty (named get_name name ks)))
    by apply NoDup_distinct.
  rewrite map_app. cbn [map]. rewrite distinct_snoc.
  destruct (decide (get_name k ∈ map get_name ks)) as [Hin|Hnotin].
  - rewrite decide_True by (apply elem_of_distinct, Hin).
    apply map_ext. intros name. f_equal. rewrite named_snoc.
    destruct (decide (name = get_name k)) as [->|Hname].
    + rewrite decide_True by reflexivity. rewrite map_app. reflexivity.
    + rewrite decide_False by congruence. rewrite app_nil_r. reflexivity.
  - rewrite decide_False by (rewrite elem_of_distinct; exact Hnotin).
    rewrite map_app. cbn [map]. f_equal.
    + apply map_ext_in. intros name Hname%list_elem_of_In.
      apply (proj1 (elem_of_distinct _ _)) in Hname.
      f_equal. rewrite named_snoc.
      rewrite decide_False by (intros Heq; apply Hnotin; rewrite Heq; exact Hname).
      rewrite app_nil_r. reflexivity.
    + rewrite named_snoc, named_nil by exact Hnotin.
      rewrite decide_True by reflexivity. reflexivity.
Qed.

End Grouping.

Lemma group_devices_named (r : Runtime) :
  group_devices r =
  map (fun name =>
         (name, map pretty (named (cuda_get_device_name r) name (device_indices r))))
    (device_names r).
Proof. apply grouping_loop. Qed.

Lemma gpu_entries_named (r : Runtime) :
  gpu_entries r = map (gpu_entry r) (device_names r).
Proof.
  unfold gpu_entries. rewrite group_devices_named, map_map. reflexivity.
Qed.

Lemma filter_gpu_entries (names : list string) (r : Runtime) :
  filter is_gpu_entry (map (gpu_entry r) names) = map (gpu_entry r) names.
Proof.
  induction names as [|name names IH]; [reflexivity|].
  cbn [map]. rewrite filter_cons_True by reflexivity. f_equal. exact IH.
Qed.

Lemma filter_optional_entry (label : string) (version : option string) :
  String.prefix "GPU" label = false ->
  filter is_gpu_entry (optional_entry label version) = [].
Proof.
  intros Hlabel. destruct version as [v|]; [|reflexivity].
  unfold optional_entry. rewrite filter_cons_False; [reflexivity|].
  unfold is_gpu_entry. cbn [fst]. rewrite Hlabel. discriminate.
Qed.

(** The entries of [env_info] whose label starts with "GPU" are those of
    lines 47-48, when line 43 lets them in. *)
Lemma filter_env_info (r : Runtime) :
  filter is_gpu_entry (env_info r) =
  if cuda_is_available r then gpu_entries r else [].
Proof.
  unfold env_info. rewrite !filter_app.
  rewrite !filter_optional_entry by reflexivity.
  change (filter is_gpu_entry [("PyTorch", Text (torch_version r))]) with
    (@nil (string * Value)).
  change (filter is_gpu_entry
            [("sys.platform", Text (sys_platform r));
             ("Python", Text (remove_newlines (sys_version r)));
             ("Numpy", Text (np_version r));
             ("CUDA available", Bool (cuda_is_available r))])
    with (@nil (string * Value)).
  cbn [app]. rewrite app_nil_r.
  destruct (cuda_is_available r); [|reflexivity].
  rewrite gpu_entries_named. apply filter_gpu_entries.
Qed.

(** The GPU entries of [env_info]. Without the accelerator there is no
    entry whose label starts with "GPU". With it, the GPU entries are one
    per device name, in the order of each name's first device: the label
    is "GPU " and the comma-joined indices, ascending, of the devices of
    that name, the value is the name. No name has two entries, and every
    device is in one. *)
Theorem gpu_entries_by_name (r : Runtime) :
  (cuda_is_available r = false -> filter is_gpu_entry (env_info r) = []) /\
  (cuda_is_available r = true ->
   filter is_gpu_entry (env_info r) = map (gpu_entry r) (device_names r) /\
   NoDup (device_names r) /\
   forall k, (k < cuda_device_count r)%nat ->
     cuda_get_device_name r k ∈ device_names r /\
     k ∈ named (cuda_get_device_name r) (cuda_get_device_name r k) (device_indices r)).
Proof.
  split; intros Hcuda; rewrite filter_env_info, Hcuda; [reflexivity|].
  split; [apply gpu_entries_named|]. split; [apply NoDup_distinct|].
  intros k Hk.
  assert (k ∈ device_indices r) as Hin.
  { apply list_elem_of_In, in_seq. lia. }
  split.
  - apply elem_of_distinct, list_elem_of_In, in_map, list_elem_of_In, Hin.
  - unfold named. apply list_elem_of_filter. split; [reflexivity|exact Hin].
Qed.

(** The interpreter version is reported, on one line: the second entry is
    the entry "Python", it is the only entry of that label, and its value
    is the version without its line feeds. *)
Theorem python_version_single_line (r : Runtime) (value : Value) :
  env_info r !! 1%nat = Some ("Python", Text (remove_newlines (sys_version r))) /\
  ("Python", Text (remove_newlines (sys_version r))) ∈ env_info r /\
  (("Python", value) ∈ env_info r -> value = Text (remove_newlines (sys_version r))) /\
  ~ In (ascii_of_nat 10) (String.list_ascii_of_string (remove_newlines (sys_version r))).
Proof.
  split; [reflexivity|].
  split; [apply list_elem_of_further, list_elem_of_here|].
  split.
  - unfold env_info. rewrite !elem_of_app, !elem_of_cons.
    intros [Hhead|[Hgpu|[Htorch|[Hvision|Hcv]]]].
    + destruct Hhead as [H|[H|[H|[H|H]]]]; try discriminate H.
      * injection H as ->. reflexivity.
      * apply elem_of_nil in H. contradiction.
    + destruct (cuda_is_available r); [|apply elem_of_nil in Hgpu; contradiction].
      unfold gpu_entries in Hgpu. apply list_elem_of_In, in_map_iff in Hgpu.
      destruct Hgpu as ([name ids] & Heq & _). discriminate Heq.
    + destruct Htorch as [H|H]; [discriminate H|].
      apply elem_of_nil in H. contradiction.
    + destruct (torchvision_version r); cbn in Hvision.
      * apply list_elem_of_singleton in Hvision. discriminate Hvision.
      * apply elem_of_nil in Hvision. contradiction.
    + destruct (cv2_version r); cbn in Hcv.
      * apply list_elem_of_singleton in Hcv. discriminate Hcv.
      * apply elem_of_nil in Hcv. contradiction.
  - induction (sys_version r) as [|c s IH]; [intros []|].
    cbn [remove_newlines]. destruct (Ascii.eqb_spec c (ascii_of_nat 10)) as [->|Hc].
    + exact IH.
    + cbn [String.list_ascii_of_string]. intros [Heq|Hin]; [congruence|exact (IH Hin)].
Qed.

Lemma python_version_witness :
  ("Python", Text "3.8.10 (default)[GCC 9.4.0]") ∈ env_info three_gpus /\
  Text "3.8.10 (default)[GCC 9.4.0]" = Text (remove_newlines (sys_version three_gpus)).
Proof.
  assert (("Python", Text "3.8.10 (default)[GCC 9.4.0]") ∈ env_info three_gpus) as Hin.
  { apply list_elem_of_further, list_elem_of_here. }
  split; [exact Hin|].
  apply (proj1 (proj2 (proj2 (python_version_single_line three_gpus _))) Hin).
Defined.

Lemma gpu_entries_witness :
  filter is_gpu_entry (env_info two_gpus) = [("GPU 0,1", Text "Tesla V100")].
Proof.
  apply (proj2 (gpu_entries_by_name two_gpus)). reflexivity.
Defined.

Example three_gpus_entries :
  filter is_gpu_entry (env_info three_gpus) =
  [("GPU 0,2", Text "Tesla V100"); ("GPU 1", Text "Tesla T4")].
Proof. vm_compute. reflexivity. Qed.

Example newlines_removed :
  remove_newlines (sys_version three_gpus) = "3.8.10 (default)[GCC 9.4.0]".
Proof. reflexivity. Qed.

(** *** Further properties of the grouping *)

Lemma append_to_ids (name id : string) (devices : DefaultDict) :
  concat (map snd (append_to name id devices)) ≡ₚ concat (map snd devices) ++ [id].
Proof.
  induction devices as [|[n ids] rest IH]; [reflexivity|].
  cbn [append_to]. destruct (String.eqb n name); cbn [map snd concat].
  - rewrite <- !app_assoc. apply Permutation_app_head, Permutation_app_comm.
  - rewrite IH, app_assoc. reflexivity.
Qed.

Lemma grouping_loop_ids (get_name : nat -> string) (ks : list nat)
    (devices : DefaultDict) :
  concat (map snd
    (fold_left (fun devices k => append_to (get_name k) (pretty k) devices)
       ks devices)) ≡ₚ
  concat (map snd devices) ++ map pretty ks.
Proof.
  revert devices. induction ks as [|k ks IH]; intros devices.
  - cbn. rewrite app_nil_r. reflexivity.
  - cbn [fold_left map]. rewrite IH, append_to_ids, <- app_assoc. reflexivity.
Qed.

Lemma distinct_nil (names : list string) : distinct names = [] <-> names = [].
Proof. destruct names; cbn [distinct]; split; congruence. Qed.

Lemma length_distinct (names : list string) :
  (length (distinct names) <= length names)%nat.
Proof.
  induction names as [|n names IH]; [reflexivity|].
  cbn [distinct length].
  pose proof (length_filter (fun m => m <> n) (distinct names)). lia.
Qed.

(** Grouping loses no device and repeats none: the indices held by the
    groups, taken together, are the indices 0 .. count-1, each once. *)
Theorem every_device_in_one_group (r : Runtime) :
  concat (map snd (group_devices r)) ≡ₚ map pretty (seq 0 (cuda_device_count r)) /\
  length (concat (map snd (group_devices r))) = cuda_device_count r /\
  NoDup (concat (map snd (group_devices r))).
Proof.
  assert (concat (map snd (group_devices r)) ≡ₚ
          map pretty (seq 0 (cuda_device_count r))) as Hperm.
  { unfold group_devices. rewrite grouping_loop_ids. reflexivity. }
  split; [exact Hperm|]. split.
  - rewrite Hperm, length_map, length_seq. reflexivity.
  - rewrite Hperm. apply (NoDup_fmap_2 _), NoDup_ListNoDup, List.seq_NoDup.
Qed.

(** There are GPU entries exactly when CUDA is available and has a device,
    and never more of them than devices. *)
Theorem gpu_entry_count (r : Runtime) :
  (filter is_gpu_entry (env_info r) = [] <->
   cuda_is_available r = false \/ cuda_device_count r = 0%nat) /\
  (length (filter is_gpu_entry (env_info r)) <= cuda_device_count r)%nat.
Proof.
  rewrite filter_env_info, gpu_entries_named.
  destruct (cuda_is_available r).
  - split.
    + split.
      * intros Hnil. right. apply map_eq_nil, distinct_nil, map_eq_nil in Hnil.
        unfold device_indices in Hnil.
        destruct (cuda_device_count r); [reflexivity|discriminate Hnil].
      * intros [Hcuda|Hcount]; [discriminate Hcuda|].
        unfold device_names, device_indices. rewrite Hcount. reflexivity.
    + rewrite length_map. unfold device_names.
      pose proof (length_distinct (map (cuda_get_device_name r) (device_indices r)))
        as Hle.
      rewrite length_map in Hle. unfold device_indices in Hle.
      rewrite length_seq in Hle. exact Hle.
  - split; [split; auto|]. cbn [length]. lia.
Qed.

Lemma gpu_entry_count_witness :
  filter is_gpu_entry
    (env_info {| sys_platform := "linux"; sys_version := "3.8.10";
                 np_version := "1.21.0"; cuda_is_available := true;
                 cuda_device_count := 0;
                 cuda_get_device_name := fun _ => "";
                 torch_version := "1.9.0"; torchvision_version := None;
                 cv2_version := None; torch_config_show := "" |}) = [].
Proof.
  apply (proj1 (gpu_entry_count _)). right. reflexivity.
Defined.

(** *** The returned string *)

Import Tabulate TabulateProofs.

Lemma single_line_rstrip (s : string) :
  single_line s = true -> single_line (rstrip s) = true.
Proof.
  induction s as [|c s IH]; [reflexivity|]. cbn [single_line rstrip].
  intros [Hc Hs]%andb_true_iff. specialize (IH Hs).
  destruct (rstrip s) as [|x t].
  - destruct (Ascii.eqb c " "); [reflexivity|].
    cbn [single_line]. rewrite Hc. reflexivity.
  - cbn [single_line] in *. rewrite Hc, IH. reflexivity.
Qed.

Lemma single_line_lstrip (s : string) :
  single_line s = true -> single_line (lstrip s) = true.
Proof.
  induction s as [|c s IH]; [reflexivity|]. intros Hs. cbn [lstrip].
  destruct (Ascii.eqb c " "); [|exact Hs].
  apply IH. cbn [single_line] in Hs. apply andb_true_iff in Hs as [_ Hs]. exact Hs.
Qed.

Lemma single_line_entry_line (w1 w2 : nat) (label value : string) :
  single_line label = true -> single_line value = true ->
  single_line (entry_line w1 w2 label value) = true.
Proof.
  intros Hlabel Hvalue. unfold entry_line, padright, strip.
  apply single_line_rstrip.
  rewrite !SmallTableProofs.single_line_app, !SmallTableProofs.single_line_spaces.
  rewrite !single_line_lstrip by (apply single_line_rstrip; assumption).
  reflexivity.
Qed.

(** The comma-joined indices of a group: digits and commas, no blank at
    the end, and not empty. *)
Lemma joined_indices (ids : list nat) :
  ids <> [] ->
  rstrip (String.concat "," (map pretty ids)) = String.concat "," (map pretty ids) /\
  String.concat "," (map pretty ids) <> "" /\
  single_line (String.concat "," (map pretty ids)) = true.
Proof.
  assert (forall k : nat,
            rstrip (pretty k) = pretty k /\ pretty k <> "" /\
            single_line (pretty k) = true) as Hone.
  { intros k. destruct (pretty_N_digits (N.of_nat k)) as [Hdigits Hne].
    split; [apply rstrip_digits, Hdigits|].
    split; [exact Hne|apply SmallTableProofs.single_line_digits, Hdigits]. }
  induction ids as [|k ids IH]; [congruence|]. intros _.
  destruct ids as [|k' ids]; [apply Hone|].
  cbn [map]. cbn [map] in IH. rewrite concat_cons.
  destruct IH as (Hfix & Hne & Hline); [discriminate|].
  destruct (Hone k) as (_ & _ & Hk).
  split; [|split].
  - rewrite <- !string_app_assoc.
    rewrite (string_app_assoc (pretty k) "," _), <- string_app_assoc.
    apply rstrip_app_r; assumption.
  - apply string_app_nonempty_r, string_app_nonempty_r, Hne.
  - rewrite !SmallTableProofs.single_line_app, Hk, Hline. reflexivity.
Qed.

(** What the proofs need of a label: stripping leaves it as it is, it has
    three characters or more, and it is on one line. *)
Lemma gpu_label_shape (ids : list nat) :
  ids <> [] ->
  let label := "GPU " +:+ String.concat "," (map pretty ids) in
  rstrip label = label /\ lstrip label = label /\
  (3 <= String.length label)%nat /\ single_line label = true.
Proof.
  intros Hids. cbn zeta. destruct (joined_indices ids Hids) as (Hfix & Hne & Hline).
  split; [apply rstrip_app_r; assumption|]. split; [reflexivity|].
  split; [rewrite string_length_app; cbn; lia|].
  rewrite SmallTableProofs.single_line_app, Hline. reflexivity.
Qed.

Lemma named_nonempty (get_name : nat -> string) (name : string) (ks : list nat) :
  name ∈ map get_name ks -> named get_name name ks <> [].
Proof.
  intros Hin%list_elem_of_In%in_map_iff. destruct Hin as (k & Hk & Hin).
  intros Hnil. apply list_elem_of_In in Hin.
  apply (filter_nil_not_elem_of _ _ k Hnil Hk Hin).
Qed.

Lemma labels_shape (r : Runtime) :
  Forall
    (fun entry : string * Value =>
       rstrip (fst entry) = fst entry /\ lstrip (fst entry) = fst entry /\
       (3 <= String.length (fst entry))%nat /\ single_line (fst entry) = true)
    (env_info r).
Proof.
  unfold env_info. rewrite !Forall_app. split; [|split; [|split; [|split]]].
  - repeat constructor; cbn; lia.
  - destruct (cuda_is_available r); [|constructor].
    rewrite gpu_entries_named. apply Forall_map, Forall_forall. intros name Hname.
    apply (gpu_label_shape (named (cuda_get_device_name r) name (device_indices r))).
    apply named_nonempty, elem_of_distinct, Hname.
  - repeat constructor; cbn; lia.
  - destruct (torchvision_version r); repeat constructor; cbn; lia.
  - destruct (cv2_version r); repeat constructor; cbn; lia.
Qed.

(** A line starts with "GPU" exactly when its label does. *)
Lemma line_prefix (w1 w2 : nat) (label value : string) :
  rstrip label = label -> lstrip label = label ->
  (3 <= String.length label)%nat ->
  String.prefix "GPU" (entry_line w1 w2 label value) = String.prefix "GPU" label.
Proof.
  intros Hr Hl Hlen.
  destruct (entry_line_starts w1 w2 label value Hr Hl) as (rest & -> & _).
  { intros ->. cbn in Hlen. lia. }
  destruct label as [|a [|b [|c label]]]; cbn in Hlen; try lia.
  change (String a (String b (String c label)) +:+ rest)
    with (String a (String b (String c (label +:+ rest)))).
  assert (forall x, String.prefix "" x = true) as Hnil by (intros []; reflexivity).
  cbn [String.prefix]. repeat case_match; rewrite ?Hnil; reflexivity.
Qed.

Lemma filter_gpu_lines (w1 w2 : nat) (r : Runtime) :
  filter (fun line => String.prefix "GPU" line = true)
    (map (report_line w1 w2) (env_info r)) =
  map (report_line w1 w2) (filter is_gpu_entry (env_info r)).
Proof.
  pose proof (labels_shape r) as Hshape.
  induction (env_info r) as [|entry entries IH]; [reflexivity|].
  apply Forall_cons in Hshape as [(Hr & Hl & Hlen & _) Hshape].
  cbn [map]. specialize (IH Hshape).
  assert (String.prefix "GPU" (report_line w1 w2 entry) = String.prefix "GPU" (fst entry))
    as Hprefix by (apply line_prefix; assumption).
  destruct (String.prefix "GPU" (fst entry)) eqn:Hlabel.
  - rewrite filter_cons_True by exact Hprefix.
    rewrite (filter_cons_True is_gpu_entry) by exact Hlabel.
    cbn [map]. f_equal. exact IH.
  - rewrite filter_cons_False by (rewrite Hprefix; discriminate).
    rewrite (filter_cons_False is_gpu_entry)
      by (unfold is_gpu_entry; rewrite Hlabel; discriminate).
    exact IH.
Qed.

(** C9. For a process in the domain of the table's model, the returned
    string is the table, a line feed and the build string; the table is a
    line of dashes, one line per entry of [env_info] in order, and the line
    of dashes again. Without the accelerator no line of the table starts
    with "GPU". With it, the lines that start with "GPU" are one per device
    name, in the order of each name's first device: the line of a name
    starts with "GPU " and the comma-joined indices, ascending, of the
    devices of that name, followed by a blank or by nothing. No name has
    two lines, and every device is counted in the line of its name. *)
Theorem collect_env_gpu_lines (r : Runtime) :
  reportable r ->
  exists w1 w2 : nat,
    collect_env r =
      simple_line [w1; w2] +:+ newline +:+
      String.concat newline (map (report_line w1 w2) (env_info r)) +:+ newline +:+
      simple_line [w1; w2] +:+ newline +:+ torch_config_show r /\
    Forall (fun line => single_line line = true)
      (map (report_line w1 w2) (env_info r)) /\
    (cuda_is_available r = false ->
     Forall (fun line => String.prefix "GPU" line = false)
       (map (report_line w1 w2) (env_info r))) /\
    (cuda_is_available r = true ->
     filter (fun line => String.prefix "GPU" line = true)
       (map (report_line w1 w2) (env_info r)) =
       map (fun name => report_line w1 w2 (gpu_entry r name)) (device_names r) /\
     NoDup (device_names r) /\
     (forall name, name ∈ device_names r ->
        exists rest,
          report_line w1 w2 (gpu_entry r name) =
            "GPU " +:+
            String.concat ","
              (map pretty (named (cuda_get_device_name r) name (device_indices r))) +:+
            rest /\
          (rest = "" \/ exists rest', rest = String " " rest')) /\
     (forall k, (k < cuda_device_count r)%nat ->
        cuda_get_device_name r k ∈ device_names r /\
        k ∈ named (cuda_get_device_name r) (cuda_get_device_name r k)
              (device_indices r))).
Proof.
  intros [_ Hplain].
  destruct (tabulate_simple_lines
              (map (fun entry => (fst entry, value_text (snd entry))) (env_info r)))
    as (w1 & w2 & Htable).
  { unfold env_info. discriminate. }
  exists w1, w2. split; [|split; [|split]].
  - unfold collect_env. rewrite Htable, map_map, !string_app_assoc. reflexivity.
  - apply Forall_map.
    pose proof (labels_shape r) as Hshape.
    rewrite Forall_forall in Hshape, Hplain. apply Forall_forall. intros entry Hentry.
    destruct (Hshape entry Hentry) as (_ & _ & _ & Hlabel).
    apply single_line_entry_line; [exact Hlabel|].
    apply SmallTableProofs.single_line_plain, Hplain, Hentry.
  - intros Hcuda. apply Forall_forall. intros line Hline.
    destruct (String.prefix "GPU" line) eqn:Hprefix; [|reflexivity].
    exfalso. revert Hline.
    apply (filter_nil_not_elem_of (fun line => String.prefix "GPU" line = true));
      [|exact Hprefix].
    rewrite filter_gpu_lines, filter_env_info, Hcuda. reflexivity.
  - intros Hcuda. split; [|split; [|split]].
    + rewrite filter_gpu_lines, filter_env_info, Hcuda, gpu_entries_named, map_map.
      reflexivity.
    + apply NoDup_distinct.
    + intros name Hname.
      destruct (gpu_label_shape (named (cuda_get_device_name r) name (device_indices r)))
        as (Hr & Hl & Hlen & _).
      { apply named_nonempty, elem_of_distinct, Hname. }
      destruct (entry_line_starts w1 w2
                  ("GPU " +:+ String.concat ","
                     (map pretty (named (cuda_get_device_name r) name (device_indices r))))
                  name Hr Hl) as (rest & Hline & Hrest).
      { intros Heq. rewrite Heq in Hlen. cbn in Hlen. lia. }
      exists rest. split; [|exact Hrest].
      unfold report_line, gpu_entry. cbn [fst snd value_text].
      rewrite Hline, !string_app_assoc. reflexivity.
    + intros k Hk.
      assert (k ∈ device_indices r) as Hin by (apply list_elem_of_In, in_seq; lia).
      split.
      * apply elem_of_distinct, list_elem_of_In, in_map, list_elem_of_In, Hin.
      * unfold named. apply list_elem_of_filter. split; [reflexivity|exact Hin].
Qed.

Lemma collect_env_gpu_lines_witness :
  exists w1 w2 : nat,
    collect_env two_gpus =
      simple_line [w1; w2] +:+ newline +:+
      String.concat newline (map (report_line w1 w2) (env_info two_gpus)) +:+ newline +:+
      simple_line [w1; w2] +:+ newline +:+ torch_config_show two_gpus /\
    filter (fun line => String.prefix "GPU" line = true)
      (map (report_line w1 w2) (env_info two_gpus)) =
    [report_line w1 w2 ("GPU 0,1", Text "Tesla V100")].
Proof.
  destruct (collect_env_gpu_lines two_gpus) as (w1 & w2 & Hreport & _ & _ & Hgpu).
  - split; [reflexivity|repeat constructor].
  - exists w1, w2. split; [exact Hreport|]. exact (proj1 (Hgpu eq_refl)).
Defined.

(** The report of the machine with two devices of one name. *)
Example two_gpus_report :
  collect_env two_gpus =
  String.concat newline
    [ "--------------  ----------";
      "sys.platform    linux";
      "Python          3.8.10";
      "Numpy           1.21.0";
      "CUDA available  True";
      "GPU 0,1         Tesla V100";
      "PyTorch         1.9.0";
      "--------------  ----------";
      "PyTorch built with: ..." ].
Proof. vm_compute. reflexivity. Qed.

End CollectEnvProofs.

